(** * Cellular-automata sandbox: step engine, rule parser and controller

  A shallow embedding of the simulation worker (countNeighbors,
  simulationStep, createInitialGrid and the worker message handler), of
  the rule parser (parseRuleString, formatRuleString) and of the
  useSimulation hook (the controller and its message protocol), followed
  by the properties of the written specification.

  Conventions.  A JavaScript number is an integer of [Z]: the model is
  that of the code where the integers it computes are safe ones, of
  absolute value at most 2^53 - 1, and statements about arguments the
  caller chooses say so.  The one place where the code can produce NaN,
  the remainder by zero, is an [option Z] whose [None] is NaN.  A
  Uint8Array is a [list Z]: a read outside the array is [undefined]
  ([None]) and a write outside it is ignored.  A string is a sequence of
  ASCII characters, of codes below 128. *)

From Stdlib Require Import ZArith Lia Ascii String.
From stdpp Require Import base numbers option list list_numbers sorting strings pretty gmap.

#[local] Open Scope Z_scope.

(** ** JavaScript primitives used by the sources *)

Module JS.

(** [a % b]: the truncating remainder, whose sign follows the dividend;
    NaN when the divisor is zero. *)
Definition rem (a b : Z) : option Z :=
  if decide (b = 0) then None else Some (Z.rem a b).

(** [Number.MAX_SAFE_INTEGER], the largest integer up to which numbers
    are exact. *)
Definition MAX_SAFE_INTEGER : Z := 2 ^ 53 - 1.

(** [new Uint8Array(n)] on an engine that allocates buffers of up to
    [maxLength] cells: RangeError for a negative length and for a length
    above the limit of the engine, which the language caps at 2^53 - 1. *)
Definition new_Uint8Array_within (maxLength n : Z) : option (list Z) :=
  if decide (n < 0 \/ Z.min maxLength MAX_SAFE_INTEGER < n) then None
  else Some (replicate (Z.to_nat n) 0).

(** [new Uint8Array(n)] for a length the engine can allocate: the only
    RangeError left is that of a negative length.  This is
    [new_Uint8Array_within] below the limit; what is stated with it holds
    of grids that fit in memory, as the 200 by 200 grid of the hook. *)
Definition new_Uint8Array (n : Z) : option (list Z) :=
  if decide (n < 0) then None else Some (replicate (Z.to_nat n) 0).

(** [cells[index]] for a numeric index that may be NaN. *)
Definition get (cells : list Z) (index : option Z) : option Z :=
  match index with
  | Some i => if decide (i < 0) then None else cells !! Z.to_nat i
  | None => None
  end.

(** [cells[index] = v]: the value is stored modulo 256, and nothing happens
    when the index is NaN, negative or past the end. *)
Definition set (cells : list Z) (index : option Z) (v : Z) : list Z :=
  match index with
  | Some i => if decide (i < 0) then cells else <[Z.to_nat i := v mod 256]> cells
  | None => cells
  end.

(** [v === 1] for a value read from a typed array. *)
Definition is_one (v : option Z) : bool :=
  match v with
  | Some 1 => true
  | _ => false
  end.

(** [arr.includes(n)] on an array of numbers. *)
Definition includes (arr : list Z) (n : Z) : bool :=
  existsb (Z.eqb n) arr.

(** [for (let i = 0; i < n; i++) body]: the body threads the state. *)
Definition for_upto {S : Type} (n : Z) (body : Z -> S -> S) (s : S) : S :=
  foldl (fun acc i => body i acc) s (seqZ 0 n).

(** Strings are sequences of ASCII characters, of codes below 128, and
    [trim] and [toUpperCase] below are [String.prototype.trim] and
    [String.prototype.toUpperCase] on such strings only.  There, [trim]
    removes the white space (tab, line feed, vertical tab, form feed,
    carriage return, space) at both ends, and [toUpperCase] changes the
    letters [a] to [z] and nothing else.  (In the language [trim] also
    removes white space that is not ASCII, as the no-break space, and
    [toUpperCase] also maps letters that are not ASCII, some of them to
    ASCII letters, as the long s to [S]: such strings are outside the
    model.) *)
Definition is_ascii (c : ascii) : bool := (N_of_ascii c <? 128)%N.

Definition is_white (c : ascii) : bool :=
  let n := N_of_ascii c in
  ((9 <=? n) && (n <=? 13) || (n =? 32))%N.

Fixpoint trimStart (s : string) : string :=
  match s with
  | String c s' => if is_white c then trimStart s' else s
  | EmptyString => EmptyString
  end.

Definition trim (s : string) : string :=
  String.rev (trimStart (String.rev (trimStart s))).

Definition upper (c : ascii) : ascii :=
  let n := N_of_ascii c in
  if ((97 <=? n) && (n <=? 122))%N then ascii_of_N (n - 32) else c.

Fixpoint toUpperCase (s : string) : string :=
  match s with
  | String c s' => String (upper c) (toUpperCase s')
  | EmptyString => EmptyString
  end.

(** The class [\d] of a regular expression. *)
Definition is_digit (c : ascii) : bool :=
  let n := N_of_ascii c in
  ((48 <=? n) && (n <=? 57))%N.

(** [Number(c)] for a string [c] of one decimal digit. *)
Definition Number (c : ascii) : Z := Z.of_N (N_of_ascii c) - 48.

(** [String(n)] for an integer: its decimal notation. *)
Definition toString (n : Z) : string := pretty n.

(** [Array.prototype.sort()] without a comparator: the elements are
    compared as strings, code unit by code unit, and the sort is stable.
    An insertion sort from the right that puts an element before the first
    one that is not smaller is such a sort. *)
Definition before (a b : Z) : bool := String.ltb (toString a) (toString b).

Fixpoint insert_sorted (a : Z) (l : list Z) : list Z :=
  match l with
  | [] => [a]
  | b :: l' => if before b a then b :: insert_sorted a l' else a :: l
  end.

Definition sort (l : list Z) : list Z := foldr insert_sorted [] l.

(** [arr.join('')]. *)
Definition join (l : list Z) : string :=
  foldr (fun n acc => toString n +:+ acc) EmptyString l.

End JS.

(** ** types.ts *)

Record CellRule := { birth : list Z; survival : list Z }.

(** The fields [x] and [y] of a position, under names that leave [x] and
    [y] free for coordinates. *)
Record CellPosition := { pos_x : Z; pos_y : Z }.

Record GridState := { width : Z; height : Z; cells : list Z }.

(** Rendering only reads zoom, panX and panY; they are left out. *)
Record SimulationConfig := { rule : CellRule; speed : Z; isRunning : bool }.

(** The messages the hook posts to the worker. *)
Inductive WorkerMessage : Type :=
| SIMULATION_STEP (currentState : list Z) (width height : Z) (rule : CellRule)
| INIT_GRID (width height : Z) (initialPattern : option (list CellPosition))
| UPDATE_RULE (rule : CellRule).

(** The messages the worker posts back. *)
Inductive WorkerReply : Type :=
| SIMULATION_RESULT (newState : list Z)
| GRID_INITIALIZED (initialState : list Z)
| RULE_UPDATED (rule : CellRule).

(** What the hook receives from its worker: a message for [onmessage], or
    an error event for [onerror] when the worker's handler threw. *)
Inductive WorkerEvent : Type :=
| Message (reply : WorkerReply)
| ErrorEvent.

(** ** workers/simulationWorker.ts *)

Module Worker.

(** [ny * width + nx], NaN as soon as one wrapped coordinate is. *)
Definition index_of (nx ny : option Z) (width : Z) : option Z :=
  match ny, nx with
  | Some ny, Some nx => Some (ny * width + nx)
  | _, _ => None
  end.

Definition countNeighbors (cells : list Z) (x y width height : Z) : Z :=
  foldl (fun count dy =>
    foldl (fun count dx =>
      if (dx =? 0) && (dy =? 0) then count
      else
        let nx := JS.rem (x + dx + width) width in
        let ny := JS.rem (y + dy + height) height in
        let index := index_of nx ny width in
        if JS.is_one (JS.get cells index) then count + 1 else count)
      count [-1; 0; 1])
    0 [-1; 0; 1].

Definition simulationStep (currentState : list Z) (width height : Z)
    (rule : CellRule) : list Z :=
  let newState := replicate (length currentState) 0 in
  JS.for_upto height (fun y newState =>
    JS.for_upto width (fun x newState =>
      let index := y * width + x in
      let currentCell := JS.get currentState (Some index) in
      let neighbors := countNeighbors currentState x y width height in
      let newCell :=
        if JS.is_one currentCell then
          if JS.includes (survival rule) neighbors then 1 else 0
        else
          if JS.includes (birth rule) neighbors then 1 else 0 in
      JS.set newState (Some index) newCell) newState) newState.

(** [createInitialGrid] on an engine that allocates buffers of up to
    [maxLength] cells.  The result is [None] when the allocation throws
    RangeError. *)
Definition createInitialGrid_within (maxLength width height : Z)
    (initialPattern : option (list CellPosition)) : option (list Z) :=
  cells ← JS.new_Uint8Array_within maxLength (width * height);
  match initialPattern with
  | Some pattern =>
      Some (foldl (fun cells pos =>
        let x := JS.rem (pos_x pos + width) width in
        let y := JS.rem (pos_y pos + height) height in
        let index := index_of x y width in
        JS.set cells index 1) cells pattern)
  | None => Some cells
  end.

(** [createInitialGrid] for a grid the engine can allocate
    ([createInitialGrid_within] below the limit): the result is [None]
    when the allocation throws RangeError for a negative length. *)
Definition createInitialGrid (width height : Z)
    (initialPattern : option (list CellPosition)) : option (list Z) :=
  cells ← JS.new_Uint8Array (width * height);
  match initialPattern with
  | Some pattern =>
      Some (foldl (fun cells pos =>
        let x := JS.rem (pos_x pos + width) width in
        let y := JS.rem (pos_y pos + height) height in
        let index := index_of x y width in
        JS.set cells index 1) cells pattern)
  | None => Some cells
  end.

(** The listener of the worker, on its variable [currentRule].  [fault]
    says that the computation of a step threw (a rule object that is not
    what its type promises, an allocation that failed): the handler then
    posts nothing and the hook's [onerror] fires.  Initialization throws
    exactly when the allocation does (here for grids the engine can
    allocate, as those the hook asks for), and a rule update never
    throws. *)
Definition onmessage (fault : bool) (currentRule : CellRule)
    (msg : WorkerMessage) : CellRule * WorkerEvent :=
  match msg with
  | SIMULATION_STEP currentState width height rule =>
      if fault then (currentRule, ErrorEvent)
      else
        let newState := simulationStep currentState width height rule in
        (currentRule, Message (SIMULATION_RESULT newState))
  | INIT_GRID width height initialPattern =>
      match createInitialGrid width height initialPattern with
      | Some initialState => (currentRule, Message (GRID_INITIALIZED initialState))
      | None => (currentRule, ErrorEvent)
      end
  | UPDATE_RULE rule => (rule, Message (RULE_UPDATED rule))
  end.

End Worker.

(** ** utils/ruleParser.ts *)

(** A call either returns a value or throws an [Error] with a message. *)
Inductive result (A : Type) : Type :=
| Ok (value : A)
| Throw (message : string).
Arguments Ok {A} value.
Arguments Throw {A} message.

(** Arrays are mutable objects: a rule object holds references to its two
  arrays, and the store maps a reference to the array's content. *)
Abbreviation ref := positive (only parsing).
Abbreviation store := (gmap positive (list Z)) (only parsing).

Record RuleObject := { birth_ref : ref; survival_ref : ref }.

Module RuleParser.

(** The longest prefix of digits of a string, and what follows it. *)
Fixpoint digits (s : string) : string * string :=
  match s with
  | String c s' =>
      if JS.is_digit c then
        let '(ds, rest) := digits s' in (String c ds, rest)
      else (EmptyString, s)
  | EmptyString => (EmptyString, EmptyString)
  end.

(** [s.match(/^B(\d+)\/S(\d+)$/)]: the two captured groups.  No digit is a
    [/], so the greedy scan decides the match without backtracking. *)
Definition match_rule (s : string) : option (string * string) :=
  match s with
  | String b s1 =>
      if Ascii.eqb b "B" then
        match digits s1 with
        | (String c1 d1, String slash (String s' s2)) =>
            if Ascii.eqb slash "/" && Ascii.eqb s' "S" then
              match digits s2 with
              | (String c2 d2, EmptyString) => Some (String c1 d1, String c2 d2)
              | _ => None
              end
            else None
        | _ => None
        end
      else None
  | EmptyString => None
  end.

(** [group.split('').map(Number)]. *)
Fixpoint split_digits (s : string) : list Z :=
  match s with
  | String c s' => JS.Number c :: split_digits s'
  | EmptyString => []
  end.

Definition parseRuleString (ruleString : string) : result CellRule :=
  let trimmed := JS.toUpperCase (JS.trim ruleString) in
  match match_rule trimmed with
  | None => Throw "Invalid rule format. Expected format: B3/S23"
  | Some (birthGroup, survivalGroup) =>
      let birthDigits := split_digits birthGroup in
      let survivalDigits := split_digits survivalGroup in
      Ok {| birth := birthDigits; survival := survivalDigits |}
  end.

(** The formatter sorts the two arrays of its argument in place, so it
    returns the string together with the store it leaves behind.  The
    result is [None] only for a dangling reference. *)
Definition formatRuleString (rule : RuleObject) (st : store)
    : option (string * store) :=
  b ← st !! birth_ref rule;
  let st := <[birth_ref rule := JS.sort b]> st in
  let birthStr := JS.join (JS.sort b) in
  s ← st !! survival_ref rule;
  let st := <[survival_ref rule := JS.sort s]> st in
  let survivalStr := JS.join (JS.sort s) in
  Some ("B" +:+ birthStr +:+ "/S" +:+ survivalStr, st).

(** [isValidRuleString]: whether [parseRuleString] returns. *)
Definition isValidRuleString (ruleString : string) : bool :=
  match parseRuleString ruleString with
  | Ok _ => true
  | Throw _ => false
  end.

(** The value of a rule object in a store. *)
Definition read_rule (rule : RuleObject) (st : store) : option CellRule :=
  b ← st !! birth_ref rule;
  s ← st !! survival_ref rule;
  Some {| birth := b; survival := s |}.

End RuleParser.


(** ** hooks/useSimulation.ts *)

Module Hook.

(** The state of the hook: its two React states and its refs.  [workerRef]
    says whether the worker exists. *)
Record State := {
  config : SimulationConfig;
  gridState : GridState;
  workerRef : bool;
  lastStepTimeRef : Z;
  isProcessingRef : bool
}.

Definition DEFAULT_CONFIG : SimulationConfig :=
  {| rule := {| birth := [3]; survival := [2; 3] |}; speed := 100; isRunning := false |}.

Definition DEFAULT_GRID_SIZE : Z := 200.

Definition set_cells (newCells : list Z) (h : State) : State :=
  {| config := config h;
     gridState := {| width := width (gridState h); height := height (gridState h);
                     cells := newCells |};
     workerRef := workerRef h;
     lastStepTimeRef := lastStepTimeRef h;
     isProcessingRef := isProcessingRef h |}.

Definition set_isProcessing (b : bool) (h : State) : State :=
  {| config := config h; gridState := gridState h; workerRef := workerRef h;
     lastStepTimeRef := lastStepTimeRef h; isProcessingRef := b |}.

Definition set_lastStepTime (now : Z) (h : State) : State :=
  {| config := config h; gridState := gridState h; workerRef := workerRef h;
     lastStepTimeRef := now; isProcessingRef := isProcessingRef h |}.

Definition set_config (c : SimulationConfig) (h : State) : State :=
  {| config := c; gridState := gridState h; workerRef := workerRef h;
     lastStepTimeRef := lastStepTimeRef h; isProcessingRef := isProcessingRef h |}.

(** The first render and the effect that creates the worker and posts the
    first INIT_GRID; [workerOk] is false when the constructor threw. *)
Definition initialPattern : list CellPosition :=
  [ {| pos_x := 10; pos_y := 10 |}; {| pos_x := 11; pos_y := 10 |};
    {| pos_x := 12; pos_y := 10 |}; {| pos_x := 12; pos_y := 11 |};
    {| pos_x := 11; pos_y := 12 |} ].

Definition mount (workerOk : bool) : State * list WorkerMessage :=
  ({| config := DEFAULT_CONFIG;
      gridState := {| width := DEFAULT_GRID_SIZE; height := DEFAULT_GRID_SIZE;
                      cells := replicate (Z.to_nat (DEFAULT_GRID_SIZE * DEFAULT_GRID_SIZE)) 0 |};
      workerRef := workerOk;
      lastStepTimeRef := 0;
      isProcessingRef := false |},
   if workerOk
   then [INIT_GRID DEFAULT_GRID_SIZE DEFAULT_GRID_SIZE (Some initialPattern)]
   else []).

(** [workerRef.current.onmessage] and [workerRef.current.onerror]. *)
Definition onmessage (reply : WorkerReply) (h : State) : State :=
  match reply with
  | SIMULATION_RESULT newState => set_isProcessing false (set_cells newState h)
  | GRID_INITIALIZED initialState => set_cells initialState h
  | RULE_UPDATED _ => h
  end.

Definition onerror (h : State) : State := set_isProcessing false h.

(** [timeSinceLastStep >= 1000 / speed], on exact numbers: a speed of zero
    makes the interval infinite, a negative one makes it negative. *)
Definition interval_elapsed (now last speed : Z) : bool :=
  if decide (speed = 0) then false
  else if decide (0 < speed) then 1000 <=? (now - last) * speed
  else (now - last) * speed <=? 1000.

(** The message of a step request: a copy of the cells, the size and the
    rule of the current render. *)
Definition step_request (h : State) : WorkerMessage :=
  SIMULATION_STEP (cells (gridState h)) (width (gridState h))
    (height (gridState h)) (rule (config h)).

(** What the animation callback closes over: [config] and [gridState] of
    the render that created it ([useCallback] on [config.isRunning],
    [config.speed], [config.rule] and [gridState]).  The refs are not
    closed over: every callback reads and writes the same ones. *)
Record Render := { render_config : SimulationConfig; render_grid : GridState }.

Definition render (h : State) : Render :=
  {| render_config := config h; render_grid := gridState h |}.

(** The message a callback posts: a copy of the cells, the size and the
    rule it closed over. *)
Definition closure_request (closure : Render) : WorkerMessage :=
  SIMULATION_STEP (cells (render_grid closure)) (width (render_grid closure))
    (height (render_grid closure)) (rule (render_config closure)).

(** One run, at time [now], of the animation callback that closed over
    [closure]; when the browser runs it is the environment's choice.  A
    callback that gets past its guard registers itself again for the next
    frame, and the effect that starts the loop registers the callback of a
    new render without cancelling the one of the render before: the
    callback that runs may be that of an older render than the current
    one.  It reads [isRunning], [speed], [rule] and the grid from its
    closure, and the worker, the in-flight flag and the time of the last
    step from the refs.  [postOk] is false when the copy or [postMessage]
    throws, which the callback catches.  The result is the new state and
    the messages posted. *)
Definition stepSimulation (closure : Render) (now : Z) (postOk : bool) (h : State)
    : State * list WorkerMessage :=
  if negb (workerRef h) || negb (isRunning (render_config closure)) || isProcessingRef h
  then (h, [])
  else if interval_elapsed now (lastStepTimeRef h) (speed (render_config closure)) then
    let h := set_isProcessing true h in
    if postOk then (set_lastStepTime now h, [closure_request closure])
    else (set_isProcessing false h, [])
  else (h, []).

Definition step (postOk : bool) (h : State) : State * list WorkerMessage :=
  if negb (workerRef h) || isProcessingRef h then (h, [])
  else
    let h := set_isProcessing true h in
    if postOk then (h, [step_request h])
    else (set_isProcessing false h, []).

Definition reset (postOk : bool) (h : State) : State * list WorkerMessage :=
  if negb (workerRef h) then (h, [])
  else if postOk
  then (h, [INIT_GRID (width (gridState h)) (height (gridState h)) None])
  else (h, []).

Definition updateRule (r : CellRule) (postOk : bool) (h : State)
    : State * list WorkerMessage :=
  let h := set_config {| rule := r; speed := speed (config h);
                         isRunning := isRunning (config h) |} h in
  if workerRef h && postOk then (h, [UPDATE_RULE r]) else (h, []).

Definition togglePlayPause (h : State) : State :=
  set_config {| rule := rule (config h); speed := speed (config h);
                isRunning := negb (isRunning (config h)) |} h.

Definition updateSpeed (s : Z) (h : State) : State :=
  set_config {| rule := rule (config h); speed := s;
                isRunning := isRunning (config h) |} h.

Definition toggleCell (x y : Z) (h : State) : State :=
  let index := y * width (gridState h) + x in
  let newCells := cells (gridState h) in
  let newCells :=
    JS.set newCells (Some index)
      (if JS.is_one (JS.get newCells (Some index)) then 0 else 1) in
  set_cells newCells h.

End Hook.

(** ** components/Canvas.tsx *)

Module Canvas.

(** [getGridCoords], from the grid coordinates the pointer position was
    floored to: null outside the grid. *)
Definition getGridCoords (gridX gridY : Z) (g : GridState) : option (Z * Z) :=
  if (0 <=? gridX) && (gridX <? width g) && (0 <=? gridY) && (gridY <? height g)
  then Some (gridX, gridY) else None.

(** The two lines [const coords = getGridCoords(e); if (coords)
    onCellClick(coords.gridX, coords.gridY)] that [handleMouseDown],
    [handleMouseMove] and [handleClick] each contain, where the
    application passes the hook's [toggleCell] as [onCellClick].  This is
    one call of [onCellClick], not what a click of the mouse does: a click
    runs two of the handlers below. *)
Definition cellClick (gridX gridY : Z) (h : Hook.State) : Hook.State :=
  match getGridCoords gridX gridY (Hook.gridState h) with
  | Some (x, y) => Hook.toggleCell x y h
  | None => h
  end.

(** What the handlers read of a mouse event: the button, whether one of
    ctrl, alt, meta or shift is held, and the grid coordinates the pointer
    position is floored to. *)
Record MouseEvent := {
  button : Z;
  modifier : bool;
  gridX : Z;
  gridY : Z
}.

(** The states [isDrawing] and [drawMode] and the ref [isDraggingRef] of
    the component.  Panning only moves the view, which is left out. *)
Record State := { isDrawing : bool; drawMode : bool; isDraggingRef : bool }.

Definition mounted : State :=
  {| isDrawing := false; drawMode := false; isDraggingRef := false |}.

Definition handleMouseDown (e : MouseEvent) (c : State) (h : Hook.State)
    : State * Hook.State :=
  if (button e =? 0) && negb (modifier e) then
    ({| isDrawing := true; drawMode := true; isDraggingRef := isDraggingRef c |},
     cellClick (gridX e) (gridY e) h)
  else if (button e =? 2) || (button e =? 1) || modifier e then
    ({| isDrawing := isDrawing c; drawMode := false; isDraggingRef := true |}, h)
  else (c, h).

Definition handleMouseMove (e : MouseEvent) (c : State) (h : Hook.State)
    : State * Hook.State :=
  if drawMode c && isDrawing c then (c, cellClick (gridX e) (gridY e) h)
  else (c, h).

Definition handleMouseUp (c : State) : State :=
  {| isDrawing := false; drawMode := drawMode c; isDraggingRef := false |}.

Definition handleClick (e : MouseEvent) (c : State) (h : Hook.State)
    : State * Hook.State :=
  if negb (isDrawing c) && drawMode c then (c, cellClick (gridX e) (gridY e) h)
  else (c, h).

(** A click of the mouse without moving it: the browser sends mousedown,
    mouseup and click, and the component is rendered again after each, so
    that each handler sees the states the one before set. *)
Definition click (e : MouseEvent) (c : State) (h : Hook.State) : State * Hook.State :=
  let '(c, h) := handleMouseDown e c h in
  let c := handleMouseUp c in
  handleClick e c h.

End Canvas.

(** ** The hook, its worker and the two message queues between them *)

Module System.

(** Messages are delivered in the order they were posted, in both
    directions, and the worker handles one message at a time. *)
Record State := {
  hook : Hook.State;
  inbox : list WorkerMessage;
  currentRule : CellRule;
  outbox : list WorkerEvent
}.

(** What can happen.  [Tick closure now postOk] is one run of an
    animation callback, the one that closed over [closure]; [CellClick] is
    one call of [onCellClick] by a handler of the canvas (a click of the
    mouse makes two); the other events of the hook are the calls of its
    operations by the controls. *)
Inductive Event : Type :=
| Tick (closure : Hook.Render) (now : Z) (postOk : bool)
| Step (postOk : bool)
| Reset (postOk : bool)
| UpdateRule (r : CellRule) (postOk : bool)
| TogglePlayPause
| UpdateSpeed (speed : Z)
| CellClick (gridX gridY : Z)
| WorkerRun (fault : bool)
| Deliver.

Definition initial (workerOk : bool) : State :=
  {| hook := (Hook.mount workerOk).1;
     inbox := (Hook.mount workerOk).2;
     currentRule := {| birth := [3]; survival := [2; 3] |};
     outbox := [] |}.

(** A hook operation and the messages it posts. *)
Definition post (r : Hook.State * list WorkerMessage) (s : State) : State :=
  {| hook := r.1; inbox := inbox s ++ r.2;
     currentRule := currentRule s; outbox := outbox s |}.

Definition with_hook (h : Hook.State) (s : State) : State :=
  {| hook := h; inbox := inbox s; currentRule := currentRule s; outbox := outbox s |}.

(** The worker handles the oldest message of its queue. *)
Definition worker_run (fault : bool) (s : State) : State :=
  match inbox s with
  | [] => s
  | msg :: rest =>
      let '(r, ev) := Worker.onmessage fault (currentRule s) msg in
      {| hook := hook s; inbox := rest; currentRule := r; outbox := outbox s ++ [ev] |}
  end.

(** The hook handles the oldest event its worker sent. *)
Definition deliver (s : State) : State :=
  match outbox s with
  | [] => s
  | ev :: rest =>
      let h := match ev with
               | Message reply => Hook.onmessage reply (hook s)
               | ErrorEvent => Hook.onerror (hook s)
               end in
      {| hook := h; inbox := inbox s; currentRule := currentRule s; outbox := rest |}
  end.

Definition transition (s : State) (e : Event) : State :=
  match e with
  | Tick closure now postOk => post (Hook.stepSimulation closure now postOk (hook s)) s
  | Step postOk => post (Hook.step postOk (hook s)) s
  | Reset postOk => post (Hook.reset postOk (hook s)) s
  | UpdateRule r postOk => post (Hook.updateRule r postOk (hook s)) s
  | TogglePlayPause => with_hook (Hook.togglePlayPause (hook s)) s
  | UpdateSpeed speed => with_hook (Hook.updateSpeed speed (hook s)) s
  | CellClick gridX gridY => with_hook (Canvas.cellClick gridX gridY (hook s)) s
  | WorkerRun fault => worker_run fault s
  | Deliver => deliver s
  end.

Definition run (s : State) (events : list Event) : State :=
  foldl transition s events.

(** The callbacks that exist are those of the renders so far.  Along
    [events] from [s], where [seen] are the renders before that of [s],
    every tick runs the callback of the current render or of an earlier
    one.  (A callback of a render in which the simulation was paused
    returns at its guard, so it does not matter that none is registered
    for such a render.) *)
Fixpoint registered (seen : list Hook.Render) (s : State) (events : list Event) : Prop :=
  match events with
  | [] => True
  | e :: rest =>
      match e with
      | Tick closure _ _ => closure ∈ Hook.render (hook s) :: seen
      | _ => True
      end /\ registered (Hook.render (hook s) :: seen) (transition s e) rest
  end.


(** The step requests that were issued and whose result or failure the
    hook has not observed yet: those the worker has not handled, and those
    whose answer is on its way back. *)
Definition is_step_request (m : WorkerMessage) : bool :=
  match m with
  | SIMULATION_STEP _ _ _ _ => true
  | _ => false
  end.

Definition answers_step (e : WorkerEvent) : bool :=
  match e with
  | Message (SIMULATION_RESULT _) => true
  | ErrorEvent => true
  | _ => false
  end.

Definition outstanding (s : State) : nat :=
  (length (List.filter is_step_request (inbox s))
   + length (List.filter answers_step (outbox s)))%nat.

End System.

(** ** components/Controls.tsx *)

Module Controls.

(** The two states of the rule box: its text and its error message. *)
Record State := { ruleInput : string; ruleError : option string }.

(** A key stroke in the rule box.  The result is the new state of the box
    and the rule handed to [onRuleChange], if any. *)
Definition handleRuleInputChange (value : string) (st : State)
    : State * option CellRule :=
  let st := {| ruleInput := value; ruleError := None |} in
  if RuleParser.isValidRuleString value then
    match RuleParser.parseRuleString value with
    | Ok rule => (st, Some rule)
    | Throw _ =>
        ({| ruleInput := ruleInput st; ruleError := Some "Invalid rule format" |}, None)
    end
  else (st, None).

End Controls.

(** ** Notions of the specification *)

Definition B3S23 : CellRule := {| birth := [3]; survival := [2; 3] |}.

(** A cell value is 0 or 1. *)
Definition is_bit (c : Z) : Prop := c = 0 \/ c = 1.

(** The cell at [(x, y)] of a buffer of the given width. *)
Definition cell_at (cells : list Z) (width x y : Z) : option Z :=
  JS.get cells (Some (y * width + x)).

(** The eight neighbours of a cell on the torus, as the positions reached
    by the eight offsets, each coordinate reduced by the non-negative
    modulo. *)
Definition offsets : list (Z * Z) :=
  [(-1, -1); (0, -1); (1, -1); (-1, 0); (1, 0); (-1, 1); (0, 1); (1, 1)].

Definition neighbours (x y w h : Z) : list (Z * Z) :=
  (fun d => ((x + d.1) mod w, (y + d.2) mod h)) <$> offsets.

Definition live_at (cells : list Z) (w : Z) (p : Z * Z) : bool :=
  JS.is_one (cell_at cells w p.1 p.2).

(** The coordinates of a grid in the order the step scans them. *)
Definition scan (w h : Z) : list (Z * Z) :=
  y ← seqZ 0 h; x ← seqZ 0 w; [(x, y)].

(** The live cells of a grid, as a set of coordinates. *)
Definition live_cells (cells : list Z) (w h : Z) : gset (Z * Z) :=
  list_to_set (List.filter (live_at cells w) (scan w h)).

Definition positions (ps : list CellPosition) : gset (Z * Z) :=
  list_to_set ((fun p => (pos_x p, pos_y p)) <$> ps).

Definition translate (dx dy w h : Z) (p : CellPosition) : CellPosition :=
  {| pos_x := (pos_x p + dx) mod w; pos_y := (pos_y p + dy) mod h |}.

Definition glider : list CellPosition :=
  [ {| pos_x := 1; pos_y := 1 |}; {| pos_x := 2; pos_y := 1 |};
    {| pos_x := 3; pos_y := 1 |}; {| pos_x := 3; pos_y := 2 |};
    {| pos_x := 2; pos_y := 3 |} ].

(** The grid [createInitialGrid] makes, empty if it throws. *)
Definition grid_of (w h : Z) (ps : list CellPosition) : list Z :=
  default [] (Worker.createInitialGrid w h (Some ps)).

Definition generations (n : nat) (g : list Z) (w h : Z) (r : CellRule) : list Z :=
  Nat.iter n (fun g => Worker.simulationStep g w h r) g.

(** The state of a cell after one generation, from the snapshot alone. *)
Definition next_cell (cells : list Z) (w h : Z) (r : CellRule) (x y : Z) : Z :=
  let n := Worker.countNeighbors cells x y w h in
  if JS.is_one (cell_at cells w x y)
  then (if JS.includes (survival r) n then 1 else 0)
  else (if JS.includes (birth r) n then 1 else 0).

(** A sequence of writes, one per element of a list. *)
Definition writes {A : Type} (idx : A -> option Z) (val : A -> Z)
    (cells : list Z) (l : list A) : list Z :=
  foldl (fun acc a => JS.set acc (idx a) (val a)) cells l.

(** A rule digit, as the notation [B.../S...] can write it. *)
Definition digit (n : Z) : Prop := 0 <= n <= 9.

(** A string of decimal digits. *)
Fixpoint all_digits (s : string) : bool :=
  match s with
  | String c s' => JS.is_digit c && all_digits s'
  | EmptyString => true
  end.

(** What follows a maximal run of digits does not start with a digit. *)
Definition no_digit_ahead (rest : string) : Prop :=
  match rest with
  | String c _ => JS.is_digit c = false
  | EmptyString => True
  end.

(** An initialization request the worker can serve: its allocation has a
    length that is not negative. *)
Definition init_ok (m : WorkerMessage) : Prop :=
  match m with
  | INIT_GRID w h _ => 0 <= w * h
  | _ => True
  end.

(** What holds of the hook, its worker and their queues in every state
    they reach: the grid has a size a buffer can have, so has every
    initialization request under way, and the in-flight flag counts the
    step requests that are outstanding. *)
Record invariant (s : System.State) : Prop := {
  inv_size :
    0 <= width (Hook.gridState (System.hook s)) * height (Hook.gridState (System.hook s));
  inv_inits : Forall init_ok (System.inbox s);
  inv_flag :
    System.outstanding s = if Hook.isProcessingRef (System.hook s) then 1%nat else 0%nat
}.

(** The grid moved by [(dx, dy)] on the torus: its cell [(x, y)] is the
    cell [(x - dx, y - dy)] of the original, coordinates taken modulo the
    size. *)
Definition moved (cells : list Z) (w h dx dy : Z) : list Z :=
  (fun p => default 0 (cell_at cells w ((p.1 - dx) mod w) ((p.2 - dy) mod h)))
    <$> scan w h.

(** A buffer of the hook's grid: 200 by 200 cells that are 0 or 1. *)
Definition grid_buffer (cells : list Z) : Prop :=
  Z.of_nat (length cells) = 200 * 200 /\ Forall is_bit cells.

Definition request_shaped (m : WorkerMessage) : Prop :=
  match m with
  | SIMULATION_STEP cells w h _ => w = 200 /\ h = 200 /\ grid_buffer cells
  | INIT_GRID w h _ => w = 200 /\ h = 200
  | UPDATE_RULE _ => True
  end.

Definition answer_shaped (e : WorkerEvent) : Prop :=
  match e with
  | Message (SIMULATION_RESULT cells) => grid_buffer cells
  | Message (GRID_INITIALIZED cells) => grid_buffer cells
  | _ => True
  end.

(** The shape every buffer keeps, in the hook and on its way to or from
    the worker. *)
Record shaped (s : System.State) : Prop := {
  shaped_width : width (Hook.gridState (System.hook s)) = 200;
  shaped_height : height (Hook.gridState (System.hook s)) = 200;
  shaped_cells : grid_buffer (cells (Hook.gridState (System.hook s)));
  shaped_inbox : Forall request_shaped (System.inbox s);
  shaped_outbox : Forall answer_shaped (System.outbox s)
}.

(** A hook whose worker could not be created. *)
Record workerless (s : System.State) : Prop := {
  workerless_ref : Hook.workerRef (System.hook s) = false;
  workerless_flag : Hook.isProcessingRef (System.hook s) = false;
  workerless_inbox : System.inbox s = [];
  workerless_outbox : System.outbox s = []
}.

(** A state of the system without the rule variable of the worker. *)
Definition observable (s : System.State)
    : Hook.State * list WorkerMessage * list WorkerEvent :=
  (System.hook s, System.inbox s, System.outbox s).

(** The hook with a worker, no request in flight and nothing in the
    queues. *)
Record idle (s : System.State) : Prop := {
  idle_ref : Hook.workerRef (System.hook s) = true;
  idle_flag : Hook.isProcessingRef (System.hook s) = false;
  idle_inbox : System.inbox s = [];
  idle_outbox : System.outbox s = []
}.

(** A string of ASCII white space. *)
Fixpoint all_white (s : string) : bool :=
  match s with
  | String c s' => JS.is_white c && all_white s'
  | EmptyString => true
  end.

(** A string of ASCII characters, on which [JS.trim] and
    [JS.toUpperCase] are the functions of the language. *)
Fixpoint all_ascii (s : string) : bool :=
  match s with
  | String c s' => JS.is_ascii c && all_ascii s'
  | EmptyString => true
  end.

(** A position whose wrap the creation computes exactly: both sums
    [x + width] and [y + height] are safe integers that are not
    negative. *)
Definition wraps (w h : Z) (p : CellPosition) : Prop :=
  (- w <= pos_x p /\ pos_x p + w <= JS.MAX_SAFE_INTEGER) /\
  (- h <= pos_y p /\ pos_y p + h <= JS.MAX_SAFE_INTEGER).

(** * Properties *)

(** ** Typed arrays and loops *)

Section Arrays.

Implicit Types (cells : list Z) (i j v : Z).

Lemma length_set cells oi v : length (JS.set cells oi v) = length cells.
Proof.
  destruct oi as [i|]; simpl; [|done].
  case_decide; [done|]. by rewrite length_insert.
Qed.

Lemma get_set_eq cells i v :
  0 <= i < Z.of_nat (length cells) ->
  JS.get (JS.set cells (Some i) v) (Some i) = Some (v mod 256).
Proof.
  intros Hi. simpl. case_decide; [lia|].
  apply list_lookup_insert_eq. lia.
Qed.

Lemma get_set_ne cells oi j v :
  oi <> Some j ->
  JS.get (JS.set cells oi v) (Some j) = JS.get cells (Some j).
Proof.
  intros Hne. destruct oi as [i|]; simpl; [|done].
  repeat case_decide; try done.
  apply list_lookup_insert_ne. intros Heq. apply Hne. f_equal. lia.
Qed.

Lemma get_replicate n v i :
  0 <= i < Z.of_nat n -> JS.get (replicate n v) (Some i) = Some v.
Proof.
  intros Hi. simpl. case_decide; [lia|]. apply lookup_replicate_2. lia.
Qed.

Lemma length_writes {A} (idx : A -> option Z) val cells (l : list A) :
  length (writes idx val cells l) = length cells.
Proof.
  unfold writes. revert cells.
  induction l as [|a l IH]; intros cells; simpl; [done|].
  rewrite IH. apply length_set.
Qed.

(** A cell no write aims at keeps its value. *)
Lemma get_writes_untouched {A} (idx : A -> option Z) val cells (l : list A) j :
  Forall (fun a => idx a <> Some j) l ->
  JS.get (writes idx val cells l) (Some j) = JS.get cells (Some j).
Proof.
  unfold writes. intros Hl. revert cells.
  induction Hl as [|a l Ha _ IH]; intros cells; [done|].
  cbn [foldl]. rewrite IH. by apply get_set_ne.
Qed.

(** When every write that aims at a cell stores the same value, and there
    is such a write, the cell ends with that value. *)
Lemma get_writes_hit {A} (idx : A -> option Z) val cells (l : list A) j v :
  0 <= j < Z.of_nat (length cells) ->
  Forall (fun a => idx a = Some j -> val a = v) l ->
  JS.get cells (Some j) = Some (v mod 256) \/ Exists (fun a => idx a = Some j) l ->
  JS.get (writes idx val cells l) (Some j) = Some (v mod 256).
Proof.
  unfold writes. intros Hj Hl. revert cells Hj.
  induction Hl as [|a l Ha _ IH]; intros cells Hj Hor.
  - destruct Hor as [?|Hex]; [done|]. by apply Exists_nil in Hex.
  - cbn [foldl]. apply IH; [by rewrite length_set|].
    destruct (decide (idx a = Some j)) as [Heq|Hne].
    + left. rewrite Heq, (Ha Heq). by apply get_set_eq.
    + rewrite get_set_ne by done.
      destruct Hor as [?|Hex]; [by left|right].
      apply Exists_cons in Hex as [?|?]; done.
Qed.

(** A loop nest is one loop over the scan order. *)
Lemma foldl_bind {A B C} (f : A -> C -> A) (g : B -> list C) (s : A) (l : list B) :
  foldl f s (l ≫= g) = foldl (fun acc b => foldl f acc (g b)) s l.
Proof.
  revert s. induction l as [|b l IH]; intros s; [done|].
  rewrite bind_cons, foldl_app. apply IH.
Qed.

End Arrays.

(** ** The step engine *)

Section Step.

Lemma foldl_ext {A B} (f g : A -> B -> A) (s : A) (l : list B) :
  (forall a b, f a b = g a b) -> foldl f s l = foldl g s l.
Proof.
  intros Hfg. revert s. induction l as [|b l IH]; intros s; simpl; [done|].
  by rewrite Hfg, IH.
Qed.

Lemma elem_of_scan w h p : p ∈ scan w h <-> (0 <= p.1 < w /\ 0 <= p.2 < h).
Proof.
  unfold scan. rewrite list_elem_of_bind. split.
  - intros (y & Hx & Hy). apply list_elem_of_bind in Hx as (x & Hp & Hx).
    apply list_elem_of_singleton in Hp as ->.
    apply elem_of_seqZ in Hx, Hy. simpl. lia.
  - intros [Hx Hy]. exists p.2. split; [|apply elem_of_seqZ; lia].
    apply list_elem_of_bind. exists p.1. split; [|apply elem_of_seqZ; lia].
    destruct p. apply list_elem_of_singleton. done.
Qed.

(** The two loops of the step are the writes of [next_cell] along the scan. *)
Lemma simulationStep_writes cells w h r :
  Worker.simulationStep cells w h r
  = writes (fun p => Some (p.2 * w + p.1)) (fun p => next_cell cells w h r p.1 p.2)
      (replicate (length cells) 0) (scan w h).
Proof.
  unfold Worker.simulationStep, JS.for_upto, writes, scan.
  rewrite foldl_bind. apply foldl_ext. intros acc y.
  rewrite foldl_bind. apply foldl_ext. intros acc' x. done.
Qed.

Lemma next_cell_bit cells w h r x y : is_bit (next_cell cells w h r x y).
Proof. unfold next_cell, is_bit. repeat case_match; auto. Qed.

(** Every cell of the new buffer is [next_cell] of the snapshot. *)
Lemma simulationStep_cell cells w h r x y :
  Z.of_nat (length cells) = w * h -> 0 <= x < w -> 0 <= y < h ->
  cell_at (Worker.simulationStep cells w h r) w x y
  = Some (next_cell cells w h r x y).
Proof.
  intros Hlen Hx Hy. unfold cell_at. rewrite simulationStep_writes.
  replace (next_cell cells w h r x y) with (next_cell cells w h r x y mod 256)
    by (destruct (next_cell_bit cells w h r x y) as [-> | ->]; done).
  apply get_writes_hit.
  - rewrite length_replicate. nia.
  - apply Forall_forall. intros [x' y'] Hin%elem_of_scan Heq. simpl in *.
    injection Heq as Heq.
    assert (y' = y) by (destruct (Z.lt_trichotomy y' y) as [?|[?|?]]; nia).
    assert (x' = x) by (subst; lia). by subst.
  - right. apply Exists_exists. exists (x, y). split; [|done].
    apply elem_of_scan. done.
Qed.

Lemma simulationStep_length cells w h r :
  length (Worker.simulationStep cells w h r) = length cells.
Proof. rewrite simulationStep_writes, length_writes. apply length_replicate. Qed.

Lemma includes_spec l n : JS.includes l n = true <-> n ∈ l.
Proof.
  unfold JS.includes. rewrite existsb_exists. split.
  - intros (m & Hin & ->%Z.eqb_eq). by apply list_elem_of_In.
  - intros Hin. exists n. split; [by apply list_elem_of_In | apply Z.eqb_refl].
Qed.

Lemma is_one_spec v : JS.is_one v = true <-> v = Some 1.
Proof.
  unfold JS.is_one. destruct v as [[|[]|]|]; split; intros; congruence.
Qed.

Lemma cell_at_bit cells w x y :
  Forall is_bit cells -> 0 <= y * w + x < Z.of_nat (length cells) ->
  cell_at cells w x y = Some 1 \/ cell_at cells w x y = Some 0.
Proof.
  intros Hbits Hi. unfold cell_at. simpl. case_decide; [lia|].
  destruct (lookup_lt_is_Some_2 cells (Z.to_nat (y * w + x))) as [c Hc]; [lia|].
  rewrite Hc. destruct (Forall_lookup_1 _ _ _ _ Hbits Hc) as [-> | ->]; auto.
Qed.

End Step.

(** The patterns of the specification, on a 6 by 6 torus under B3/S23: a
    lone cell dies, a block stays, a blinker has period two. *)
Example lone_cell_dies :
  Worker.simulationStep (grid_of 6 6 [ {| pos_x := 2; pos_y := 2 |} ]) 6 6 B3S23
  = replicate 36 0.
Proof. vm_compute. reflexivity. Qed.

Example block_is_still :
  let block := grid_of 6 6 [ {| pos_x := 2; pos_y := 2 |}; {| pos_x := 3; pos_y := 2 |};
                             {| pos_x := 2; pos_y := 3 |}; {| pos_x := 3; pos_y := 3 |} ] in
  Worker.simulationStep block 6 6 B3S23 = block.
Proof. vm_compute. reflexivity. Qed.

Example blinker_oscillates :
  let blinker := grid_of 6 6 [ {| pos_x := 2; pos_y := 1 |}; {| pos_x := 2; pos_y := 2 |};
                               {| pos_x := 2; pos_y := 3 |} ] in
  Worker.simulationStep blinker 6 6 B3S23 <> blinker /\
  generations 2 blinker 6 6 B3S23 = blinker.
Proof. vm_compute. split; [discriminate | reflexivity]. Qed.

(** ** Neighbour counting on the torus *)

Section Torus.

(** For the coordinates the loops produce, [(a + w) % w] is the
    non-negative modulo. *)
Lemma rem_wrap a w : 0 < w -> - w <= a -> JS.rem (a + w) w = Some (a mod w).
Proof.
  intros Hw Ha. unfold JS.rem. rewrite decide_False by lia. f_equal.
  rewrite Z.rem_mod_nonneg by lia.
  rewrite <- (Z.mul_1_l w) at 1. apply Z_mod_plus_full.
Qed.

Lemma count_foldl {A} (f : A -> bool) (l : list A) (c : Z) :
  foldl (fun count a => if f a then count + 1 else count) c l
  = c + Z.of_nat (length (List.filter f l)).
Proof.
  revert c. induction l as [|a l IH]; intros c; simpl; [lia|].
  rewrite IH. destruct (f a); simpl; lia.
Qed.

(** The two loops over the offsets, unrolled. *)
Lemma countNeighbors_unroll cells x y w h :
  Worker.countNeighbors cells x y w h
  = foldl (fun count d =>
      if JS.is_one (JS.get cells
           (Worker.index_of (JS.rem (x + d.1 + w) w) (JS.rem (y + d.2 + h) h) w))
      then count + 1 else count) 0 offsets.
Proof. reflexivity. Qed.

Lemma countNeighbors_count cells x y w h :
  0 < w -> 0 < h -> 0 <= x < w -> 0 <= y < h ->
  Worker.countNeighbors cells x y w h
  = Z.of_nat (length (List.filter (live_at cells w) (neighbours x y w h))).
Proof.
  intros Hw Hh Hx Hy. rewrite countNeighbors_unroll.
  unfold neighbours, offsets, live_at, cell_at. cbn [foldl fmap list_fmap fst snd].
  rewrite !rem_wrap by lia. cbn [Worker.index_of].
  rewrite <- (Z.add_0_l (Z.of_nat _)).
  rewrite <- (count_foldl (fun p => JS.is_one (JS.get cells (Some (p.2 * w + p.1))))).
  reflexivity.
Qed.

Lemma wrap_succ_ne x w : 2 <= w -> 0 <= x < w -> (x + 1) mod w <> x.
Proof.
  intros Hw Hx. destruct (decide (x + 1 < w)).
  - rewrite Z.mod_small; lia.
  - replace (x + 1) with w by lia. rewrite Z_mod_same_full. lia.
Qed.

Lemma wrap_pred_ne x w : 2 <= w -> 0 <= x < w -> (x + -1) mod w <> x.
Proof.
  intros Hw Hx. destruct (decide (x = 0)) as [-> | ?].
  - change (0 + -1) with (-1). rewrite <- (Z_mod_plus_full (-1) 1 w).
    rewrite Z.mod_small; lia.
  - rewrite Z.mod_small; lia.
Qed.

Lemma wrap_zero x w : 0 <= x < w -> (x + 0) mod w = x.
Proof. intros Hx. rewrite Z.add_0_r. apply Z.mod_small. done. Qed.

Lemma wrap_one a : a mod 1 = 0.
Proof. apply Z.mod_1_r. Qed.

End Torus.

(** C1.  One generation is a simultaneous update: on a snapshot of
    [w * h] cells that are 0 or 1, the step returns a buffer of the same
    length whose cell at index [y * w + x] is 0 or 1, and is live exactly
    when the snapshot's cell was live with a number of live neighbours in
    [survival], or dead with a number of live neighbours in [birth].  The
    number [n] is the number of live cells of the snapshot among the
    eight neighbours of [(x, y)] on the torus, and the old state is that
    of the snapshot, whatever was already written to the new buffer. *)
Theorem simulationStep_simultaneous cells w h r x y :
  Z.of_nat (length cells) = w * h ->
  Forall is_bit cells ->
  0 <= x < w -> 0 <= y < h ->
  let n := Z.of_nat (length (List.filter (live_at cells w) (neighbours x y w h))) in
  let next := Worker.simulationStep cells w h r in
  length next = length cells /\
  (cell_at next w x y = Some 1 \/ cell_at next w x y = Some 0) /\
  (cell_at next w x y = Some 1 <->
     (cell_at cells w x y = Some 1 /\ n ∈ survival r) \/
     (cell_at cells w x y = Some 0 /\ n ∈ birth r)).
Proof.
  intros Hlen Hbits Hx Hy n next. subst next.
  split; [apply simulationStep_length|].
  rewrite simulationStep_cell by done.
  assert (Hold : cell_at cells w x y = Some 1 \/ cell_at cells w x y = Some 0)
    by (apply cell_at_bit; [done | nia]).
  unfold next_cell. rewrite countNeighbors_count by lia. fold n.
  split.
  - repeat case_match; auto.
  - destruct Hold as [Hold | Hold]; rewrite Hold; simpl.
    + destruct (JS.includes (survival r) n) eqn:Hin.
      * apply includes_spec in Hin. split; [intros _; left; done | done].
      * split; [done|]. intros [[_ Hn] | [? _]]; [|done].
        apply includes_spec in Hn. congruence.
    + destruct (JS.includes (birth r) n) eqn:Hin.
      * apply includes_spec in Hin. split; [intros _; right; done | done].
      * split; [done|]. intros [[? _] | [_ Hn]]; [done|].
        apply includes_spec in Hn. congruence.
Qed.

(** A blinker on a 5 by 5 grid: its centre survives with two live
    neighbours, the cells above and below it. *)
Lemma simulationStep_simultaneous_witness :
  let cells := [0;0;0;0;0; 0;0;1;0;0; 0;0;1;0;0; 0;0;1;0;0; 0;0;0;0;0] in
  let n := Z.of_nat (length (List.filter (live_at cells 5) (neighbours 2 2 5 5))) in
  n = 2 /\
  (cell_at (Worker.simulationStep cells 5 5 B3S23) 5 2 2 = Some 1 <->
    (cell_at cells 5 2 2 = Some 1 /\ n ∈ survival B3S23) \/
    (cell_at cells 5 2 2 = Some 0 /\ n ∈ birth B3S23)).
Proof.
  intros cells n. split; [reflexivity|].
  refine (proj2 (proj2 (simulationStep_simultaneous cells 5 5 B3S23 2 2 _ _ _ _))).
  - reflexivity.
  - subst cells. repeat (constructor; [unfold is_bit; auto|]). constructor.
  - lia.
  - lia.
Defined.

Lemma wrap_minus_one w : 0 < w -> (0 + -1) mod w = w - 1.
Proof.
  intros Hw. change (0 + -1) with (-1).
  rewrite <- (Z_mod_plus_full (-1) 1 w). rewrite Z.mod_small; lia.
Qed.

(** C2, as the code has it.  On a grid of positive width and height the
    count of a cell is the number of the eight offsets whose wrapped
    position, each coordinate taken by the non-negative modulo, holds a live
    cell; a position reached by several offsets counts once for each.  The
    cell itself is not among these positions as soon as the grid is at least
    two cells wide and two cells high, and the corner [(0, 0)] has the
    opposite corner [(w - 1, h - 1)] among its neighbours. *)
Theorem countNeighbors_torus cells w h x y :
  0 < w -> 0 < h -> 0 <= x < w -> 0 <= y < h ->
  Worker.countNeighbors cells x y w h
    = Z.of_nat (length (List.filter (live_at cells w) (neighbours x y w h))) /\
  (2 <= w -> 2 <= h -> (x, y) ∉ neighbours x y w h) /\
  (w - 1, h - 1) ∈ neighbours 0 0 w h.
Proof.
  intros Hw Hh Hx Hy. split; [by apply countNeighbors_count|]. split.
  - intros Hw2 Hh2. unfold neighbours, offsets. cbn [fmap list_fmap fst snd].
    pose proof (wrap_succ_ne x w Hw2 Hx). pose proof (wrap_pred_ne x w Hw2 Hx).
    pose proof (wrap_succ_ne y h Hh2 Hy). pose proof (wrap_pred_ne y h Hh2 Hy).
    repeat (apply not_elem_of_cons; split; [intros [= ? ?]; congruence|]).
    apply not_elem_of_nil.
  - unfold neighbours, offsets. cbn [fmap list_fmap fst snd].
    rewrite !wrap_minus_one by done. apply list_elem_of_here.
Qed.

Lemma countNeighbors_torus_witness :
  Worker.countNeighbors [0;1;0; 0;0;0; 0;0;1] 0 0 3 3
    = Z.of_nat (length (List.filter (live_at [0;1;0; 0;0;0; 0;0;1] 3)
                          (neighbours 0 0 3 3))) /\
  (2 <= 3 -> 2 <= 3 -> (0, 0) ∉ neighbours 0 0 3 3) /\
  (3 - 1, 3 - 1) ∈ neighbours 0 0 3 3.
Proof. apply (countNeighbors_torus [0;1;0; 0;0;0; 0;0;1] 3 3 0 0); lia. Defined.

(** On a grid of one cell the eight wrapped neighbours are the cell itself:
    alone and live it counts eight neighbours, alone and dead none. *)
Lemma countNeighbors_counts_itself :
  (0, 0) ∈ neighbours 0 0 1 1 /\
  Worker.countNeighbors [1] 0 0 1 1 = 8 /\
  Worker.countNeighbors [0] 0 0 1 1 = 0.
Proof. split; [apply list_elem_of_here | split; reflexivity]. Qed.

(** ** The glider *)

(** C5, as the code has it.  On the 6 by 6 torus under B3/S23 the five
    cells [(1,1), (2,1), (3,1), (3,2), (2,3)] are, after exactly four
    generations, the same five cells moved by [(+1, -1)] modulo 6: this
    glider travels towards smaller [y]. *)
Theorem glider_four_generations :
  live_cells (generations 4 (grid_of 6 6 glider) 6 6 B3S23) 6 6
  = positions (translate 1 (-1) 6 6 <$> glider).
Proof. vm_compute. reflexivity. Qed.

(** After four generations the live cells are not the seed moved by
    [(+1, +1)]: the cell [(2, 2)] of that set is dead, and the live cell
    [(2, 0)] is not in it. *)
Lemma glider_not_down_right :
  live_cells (generations 4 (grid_of 6 6 glider) 6 6 B3S23) 6 6
  <> positions (translate 1 1 6 6 <$> glider).
Proof.
  intros Heq.
  apply (f_equal (fun s : gset (Z * Z) => bool_decide ((2, 2) ∈ s))) in Heq.
  vm_compute in Heq. discriminate.
Qed.

(** ** Grid creation *)

Section Create.

Lemma createInitialGrid_throws w h pattern :
  Worker.createInitialGrid w h pattern = None <-> w * h < 0.
Proof.
  unfold Worker.createInitialGrid, JS.new_Uint8Array.
  case_decide; simpl; [done|]. destruct pattern; split; (done || lia).
Qed.

(** With both wrapped coordinates in range from the start, the index the
    loop computes is that of the wrapped cell. *)
Lemma pattern_index w h p :
  0 < w -> 0 < h -> - w <= pos_x p -> - h <= pos_y p ->
  Worker.index_of (JS.rem (pos_x p + w) w) (JS.rem (pos_y p + h) h) w
  = Some (pos_y p mod h * w + pos_x p mod w).
Proof. intros. by rewrite !rem_wrap. Qed.

Lemma index_inj w x y x' y' :
  0 <= x < w -> 0 <= x' < w -> y * w + x = y' * w + x' -> x = x' /\ y = y'.
Proof.
  intros Hx Hx' Heq.
  assert (y = y') by (destruct (Z.lt_trichotomy y y') as [?|[?|?]]; nia).
  subst. lia.
Qed.

End Create.

Lemma writes_bits {A} (idx : A -> option Z) cells (l : list A) :
  Forall is_bit cells -> Forall is_bit (writes idx (fun _ => 1) cells l).
Proof.
  unfold writes. revert cells.
  induction l as [|a l IH]; intros cells Hbits; [done|].
  cbn [foldl]. apply IH. unfold JS.set.
  destruct (idx a) as [i|]; [|done]. case_decide; [done|].
  apply Forall_insert; [done|]. right. reflexivity.
Qed.

Lemma createInitialGrid_writes w h ps :
  0 <= w * h ->
  Worker.createInitialGrid w h (Some ps)
  = Some (writes
            (fun p => Worker.index_of (JS.rem (pos_x p + w) w) (JS.rem (pos_y p + h) h) w)
            (fun _ => 1) (replicate (Z.to_nat (w * h)) 0) ps).
Proof.
  intros Hwh. unfold Worker.createInitialGrid, JS.new_Uint8Array.
  rewrite decide_False by lia. reflexivity.
Qed.

(** The creation on an engine, where the buffer fits. *)
Lemma createInitialGrid_within_fits maxLength w h pattern :
  0 <= w * h <= Z.min maxLength JS.MAX_SAFE_INTEGER ->
  Worker.createInitialGrid_within maxLength w h pattern
  = Worker.createInitialGrid w h pattern.
Proof.
  intros Hwh. unfold Worker.createInitialGrid_within, Worker.createInitialGrid,
    JS.new_Uint8Array_within, JS.new_Uint8Array.
  rewrite decide_False by lia. by rewrite decide_False by lia.
Qed.

Lemma createInitialGrid_within_throws maxLength w h pattern :
  Worker.createInitialGrid_within maxLength w h pattern = None
  <-> w * h < 0 \/ Z.min maxLength JS.MAX_SAFE_INTEGER < w * h.
Proof.
  unfold Worker.createInitialGrid_within, JS.new_Uint8Array_within.
  case_decide; simpl; [done|]. destruct pattern; split; (done || lia).
Qed.

(** The cells of a pattern whose positions wrap. *)
Lemma createInitialGrid_cells w h ps x y :
  0 < w -> 0 < h ->
  Forall (fun p => - w <= pos_x p /\ - h <= pos_y p) ps ->
  0 <= x < w -> 0 <= y < h ->
  cell_at (writes
             (fun p => Worker.index_of (JS.rem (pos_x p + w) w) (JS.rem (pos_y p + h) h) w)
             (fun _ => 1) (replicate (Z.to_nat (w * h)) 0) ps) w x y = Some 1
  <-> exists p, p ∈ ps /\ pos_x p mod w = x /\ pos_y p mod h = y.
Proof.
  intros Hw Hh Hps Hx Hy. unfold cell_at.
  set (idx := fun p => Worker.index_of (JS.rem (pos_x p + w) w)
                         (JS.rem (pos_y p + h) h) w).
  assert (Hidx : forall p, p ∈ ps ->
    idx p = Some (y * w + x) <-> pos_x p mod w = x /\ pos_y p mod h = y).
  { intros p Hp. rewrite Forall_forall in Hps. destruct (Hps p Hp) as [Hpx Hpy].
    unfold idx. rewrite pattern_index by done. split.
    - intros [= Heq]. apply index_inj in Heq as [? ?]; [done| |done].
      apply Z.mod_pos_bound. done.
    - intros [<- <-]. done. }
  destruct (decide (Exists (fun p => idx p = Some (y * w + x)) ps)) as [Hex|Hno].
  + rewrite (get_writes_hit idx (fun _ => 1) _ ps (y * w + x) 1).
    * split; [intros _|done].
      apply Exists_exists in Hex as (p & Hp & Hi).
      exists p. split; [done|]. by apply Hidx.
    * rewrite length_replicate. nia.
    * by apply Forall_forall.
    * by right.
  + apply not_Exists_Forall in Hno; [|intros p; apply _].
    rewrite get_writes_untouched by done.
    rewrite get_replicate by nia. split; [done|].
    intros (p & Hp & Hxy). rewrite Forall_forall in Hno.
    exfalso. apply (Hno p Hp). simpl. by apply Hidx.
Qed.

(** C8, as the code has it.  Grid creation checks no dimension: on an
    engine that allocates buffers of up to [maxLength] cells it fails, with
    the RangeError of the allocation, exactly when [width * height] is
    negative or above what the engine allocates, and the INIT_GRID handler
    throws with it; so a zero width or height gives an empty buffer.
    Where the buffer can be allocated it has [width * height] cells that
    are 0 or 1, all zero without a pattern, and the handler posts it.
    For a positive width and height and a pattern whose positions wrap
    exactly ([- width <= x], [- height <= y], and [x + width],
    [y + height] safe integers), the cell [(x, y)] is live exactly when
    some position wraps to it. *)
Theorem createInitialGrid_spec maxLength w h :
  let limit := Z.min maxLength JS.MAX_SAFE_INTEGER in
  (forall pattern,
     Worker.createInitialGrid_within maxLength w h pattern = None
     <-> w * h < 0 \/ limit < w * h) /\
  (w * h < 0 ->
   forall fault r pattern,
     Worker.onmessage fault r (INIT_GRID w h pattern) = (r, ErrorEvent)) /\
  (0 <= w * h <= limit ->
   forall pattern, exists cells,
     Worker.createInitialGrid_within maxLength w h pattern = Some cells /\
     (forall fault r,
        Worker.onmessage fault r (INIT_GRID w h pattern)
        = (r, Message (GRID_INITIALIZED cells))) /\
     Z.of_nat (length cells) = w * h /\
     Forall is_bit cells /\
     (pattern = None -> cells = replicate (Z.to_nat (w * h)) 0) /\
     (forall ps, pattern = Some ps -> 0 < w -> 0 < h -> Forall (wraps w h) ps ->
      forall x y, 0 <= x < w -> 0 <= y < h ->
        (cell_at cells w x y = Some 1 <->
         exists p, p ∈ ps /\ pos_x p mod w = x /\ pos_y p mod h = y))).
Proof.
  intros limit. split; [apply createInitialGrid_within_throws|]. split.
  - intros Hneg fault r pattern. cbn [Worker.onmessage].
    by rewrite (proj2 (createInitialGrid_throws w h pattern) Hneg).
  - intros Hwh pattern. rewrite createInitialGrid_within_fits by done.
    destruct pattern as [ps|].
    + eexists. split; [apply createInitialGrid_writes; lia|].
      split; [intros fault r; cbn [Worker.onmessage];
              by rewrite createInitialGrid_writes by lia|].
      split; [rewrite length_writes, length_replicate; lia|].
      split; [apply writes_bits, Forall_replicate; by left|].
      split; [done|].
      intros ps' [= <-] Hw Hh Hps x y Hx Hy.
      apply createInitialGrid_cells; try done.
      eapply Forall_impl; [exact Hps|]. intros p [[? _] [? _]]. done.
    + exists (replicate (Z.to_nat (w * h)) 0).
      assert (Hnone : Worker.createInitialGrid w h None
                      = Some (replicate (Z.to_nat (w * h)) 0)).
      { unfold Worker.createInitialGrid, JS.new_Uint8Array.
        by rewrite decide_False by lia. }
      split; [done|].
      split; [intros fault r; cbn [Worker.onmessage]; by rewrite Hnone|].
      split; [rewrite length_replicate; lia|].
      split; [apply Forall_replicate; by left|].
      split; [done|]. intros ps' [=].
Qed.

(** On an engine that allocates up to 2^32 - 1 cells, the position
    [(-1, 4)] of a 3 by 3 grid makes the cell [(2, 1)] live. *)
Lemma createInitialGrid_spec_witness :
  exists cells,
    Worker.createInitialGrid_within (2 ^ 32 - 1) 3 3
      (Some [ {| pos_x := -1; pos_y := 4 |} ]) = Some cells /\
    (cell_at cells 3 2 1 = Some 1 <->
     exists p, p ∈ [ {| pos_x := -1; pos_y := 4 |} ]
               /\ pos_x p mod 3 = 2 /\ pos_y p mod 3 = 1).
Proof.
  destruct (proj2 (proj2 (createInitialGrid_spec (2 ^ 32 - 1) 3 3)) ltac:(vm_compute; split; discriminate)
              (Some [ {| pos_x := -1; pos_y := 4 |} ]))
    as (cells & Hc & _ & _ & _ & _ & Hiff).
  exists cells. split; [exact Hc|].
  apply (Hiff _ eq_refl); [lia | lia | | lia | lia].
  constructor; [|constructor].
  unfold wraps, JS.MAX_SAFE_INTEGER. simpl. lia.
Defined.

(** A width of zero is accepted and gives the empty buffer; so are two
    negative dimensions, which give a buffer that no coordinate reaches. *)
Lemma createInitialGrid_accepts_zero_width :
  Worker.createInitialGrid 0 5 None = Some [] /\
  Worker.createInitialGrid 0 5 (Some [ {| pos_x := 1; pos_y := 1 |} ]) = Some [] /\
  Worker.createInitialGrid (-1) (-2) None = Some [0; 0].
Proof. repeat split; reflexivity. Qed.

(** The same on any engine, even one that allocates the empty buffer
    only. *)
Lemma createInitialGrid_within_zero_width maxLength :
  0 <= maxLength -> Worker.createInitialGrid_within maxLength 0 5 None = Some [].
Proof.
  intros Hmax. rewrite createInitialGrid_within_fits; [done|].
  unfold JS.MAX_SAFE_INTEGER. lia.
Qed.

(** ** Single-cell edits *)

Section Toggle.





End Toggle.




(** ** Sorting without a comparator *)

Section Sort.

(** A boolean property checked on the ten digits holds of every digit. *)
Lemma for_digits (P : Z -> bool) :
  forallb P (seqZ 0 10) = true -> forall n, digit n -> P n = true.
Proof.
  intros Hall n Hn. rewrite forallb_forall in Hall. apply Hall.
  apply list_elem_of_In, elem_of_seqZ. unfold digit in Hn. lia.
Qed.

(** On digits the order of the strings is the order of the numbers. *)
Lemma before_digits a b : digit a -> digit b -> JS.before a b = (a <? b).
Proof.
  intros Ha Hb. apply eqb_prop.
  revert b Hb. apply for_digits. revert a Ha. apply for_digits.
  vm_compute. reflexivity.
Qed.

Lemma insert_sorted_perm a l : JS.insert_sorted a l ≡ₚ a :: l.
Proof.
  induction l as [|b l IH]; simpl; [done|].
  destruct (JS.before b a); [|done].
  rewrite IH. apply Permutation_swap.
Qed.

Lemma sort_perm l : JS.sort l ≡ₚ l.
Proof.
  induction l as [|a l IH]; simpl; [done|].
  rewrite insert_sorted_perm. by rewrite IH.
Qed.

Lemma insert_sorted_Sorted a l :
  digit a -> Forall digit l -> Sorted Z.le l -> Sorted Z.le (JS.insert_sorted a l).
Proof.
  intros Ha Hl Hs. induction l as [|b l IH]; simpl.
  - repeat constructor.
  - apply Forall_cons_1 in Hl as [Hb Hl]. apply Sorted_inv in Hs as [Hs Hhd].
    rewrite before_digits by done. destruct (Z.ltb_spec b a) as [Hlt|Hge].
    + constructor; [by apply IH|].
      destruct l as [|c l]; simpl.
      * constructor. lia.
      * apply HdRel_inv in Hhd. case_match; constructor; lia.
    + constructor; [by constructor|]. constructor. done.
Qed.

Lemma sort_digits l : Forall digit l -> Forall digit (JS.sort l).
Proof. intros Hl. by rewrite sort_perm. Qed.

Lemma sort_Sorted l : Forall digit l -> Sorted Z.le (JS.sort l).
Proof.
  induction 1 as [|a l Ha Hl IH]; simpl; [constructor|].
  apply insert_sorted_Sorted; [done | by apply sort_digits | done].
Qed.

End Sort.

(** Multi-digit numbers show the comparison is the one of strings. *)
Example sort_by_string : JS.sort [10; 9; 1] = [1; 10; 9].
Proof. reflexivity. Qed.

(** ** The formatter *)

(** What the formatter returns and leaves behind, on arrays of digits:
    the two arrays are sorted, whether or not they are one array. *)
Lemma formatRuleString_result (rule : RuleObject) (st : store) b s :
  st !! birth_ref rule = Some b ->
  st !! survival_ref rule = Some s ->
  Forall digit b -> Forall digit s ->
  exists b' s' st',
    RuleParser.formatRuleString rule st
      = Some ("B" +:+ JS.join b' +:+ "/S" +:+ JS.join s', st') /\
    b' ≡ₚ b /\ s' ≡ₚ s /\ Sorted Z.le b' /\ Sorted Z.le s' /\
    st' !! birth_ref rule = Some b' /\
    st' !! survival_ref rule = Some s' /\
    (forall l, l <> birth_ref rule -> l <> survival_ref rule -> st' !! l = st !! l).
Proof.
  intros Hb Hs Hdb Hds. unfold RuleParser.formatRuleString.
  rewrite Hb. cbn [mbind option_bind].
  destruct (decide (birth_ref rule = survival_ref rule)) as [Heq|Hne].
  - (* the two sides are one array, sorted twice *)
    assert (s = b) as -> by congruence.
    rewrite <- Heq, lookup_insert_eq. cbn [mbind option_bind].
    assert (Hfix : JS.sort (JS.sort b) = JS.sort b).
    { clear -Hdb. pose proof (sort_Sorted b Hdb) as Hs.
      pose proof (sort_digits b Hdb) as Hd.
      induction Hs as [|a l Hl IH Hhd]; [done|]. simpl.
      apply Forall_cons_1 in Hd as [Ha Hd]. rewrite IH by done.
      destruct l as [|c l]; [done|]. simpl.
      apply HdRel_inv in Hhd. apply Forall_cons_1 in Hd as [Hc _].
      rewrite before_digits by done. destruct (Z.ltb_spec c a); [lia|done]. }
    rewrite Hfix.
    exists (JS.sort b), (JS.sort b). eexists.
    split; [reflexivity|].
    pose proof (sort_Sorted b Hdb). pose proof (sort_perm b).
    repeat split; try done; try apply lookup_insert_eq.
    intros l Hl _. by rewrite !lookup_insert_ne.
  - rewrite lookup_insert_ne, Hs by done. cbn [mbind option_bind].
    exists (JS.sort b), (JS.sort s). eexists.
    split; [reflexivity|].
    repeat split; try (by apply sort_Sorted); try apply sort_perm.
    + by rewrite lookup_insert_ne, lookup_insert_eq.
    + apply lookup_insert_eq.
    + intros l Hl1 Hl2. by rewrite !lookup_insert_ne.
Qed.

(** C10.  [formatRuleString] mutates its argument.  For a rule object
    whose two arrays hold digits, the call returns and leaves, at both
    references, arrays that are sorted in ascending order and hold the
    elements they held before; an array that was not in ascending order is
    therefore no longer the array it was.  The string is made of the
    sorted arrays, and no other array of the store changes. *)
Theorem formatRuleString_sorts_in_place (rule : RuleObject) (st : store) b s :
  st !! birth_ref rule = Some b ->
  st !! survival_ref rule = Some s ->
  Forall digit b -> Forall digit s ->
  exists str st' b' s',
    RuleParser.formatRuleString rule st = Some (str, st') /\
    st' !! birth_ref rule = Some b' /\
    st' !! survival_ref rule = Some s' /\
    Sorted Z.le b' /\ b' ≡ₚ b /\
    Sorted Z.le s' /\ s' ≡ₚ s /\
    (~ Sorted Z.le b -> b' <> b) /\
    (~ Sorted Z.le s -> s' <> s) /\
    str = "B" +:+ JS.join b' +:+ "/S" +:+ JS.join s' /\
    (forall l, l <> birth_ref rule -> l <> survival_ref rule -> st' !! l = st !! l).
Proof.
  intros Hb Hs Hdb Hds.
  destruct (formatRuleString_result rule st b s Hb Hs Hdb Hds)
    as (b' & s' & st' & Hfmt & Hpb & Hps & Hsb & Hss & Hlb & Hls & Hframe).
  exists ("B" +:+ JS.join b' +:+ "/S" +:+ JS.join s'), st', b', s'.
  split; [done|]. split; [done|]. split; [done|].
  split; [done|]. split; [done|]. split; [done|]. split; [done|].
  split; [|split; [|split; [done|]]].
  - intros Hn Hx. apply Hn. by rewrite <- Hx.
  - intros Hn Hx. apply Hn. by rewrite <- Hx.
  - intros l Hl1 Hl2. by apply Hframe.
Qed.

(** The rule of the tests, [{ birth: [3, 1], survival: [3, 2, 1] }]. *)
Lemma formatRuleString_sorts_in_place_witness :
  let rule := {| birth_ref := 1; survival_ref := 2 |} in
  let st : store := <[1%positive := [3; 1]]> (<[2%positive := [3; 2; 1]]> ∅) in
  exists str st' b' s',
    RuleParser.formatRuleString rule st = Some (str, st') /\
    st' !! birth_ref rule = Some b' /\
    st' !! survival_ref rule = Some s' /\
    Sorted Z.le b' /\ b' ≡ₚ [3; 1] /\
    Sorted Z.le s' /\ s' ≡ₚ [3; 2; 1] /\
    (~ Sorted Z.le [3; 1] -> b' <> [3; 1]) /\
    (~ Sorted Z.le [3; 2; 1] -> s' <> [3; 2; 1]) /\
    str = "B" +:+ JS.join b' +:+ "/S" +:+ JS.join s' /\
    (forall l, l <> birth_ref rule -> l <> survival_ref rule -> st' !! l = st !! l).
Proof.
  intros rule st.
  apply (formatRuleString_sorts_in_place rule st [3; 1] [3; 2; 1]).
  - reflexivity.
  - reflexivity.
  - repeat (constructor; [unfold digit; lia|]). constructor.
  - repeat (constructor; [unfold digit; lia|]). constructor.
Defined.

Example formatRuleString_test :
  fst <$> RuleParser.formatRuleString {| birth_ref := 1; survival_ref := 2 |}
            (<[1%positive := [3; 1]]> (<[2%positive := [3; 2; 1]]> ∅))
  = Some "B13/S123".
Proof. reflexivity. Qed.

(** ** The parser *)

Section Parser.

Implicit Types (s d ds rest : string) (c : ascii).

Lemma append_cons c s1 s2 : String c s1 +:+ s2 = String c (s1 +:+ s2).
Proof. reflexivity. Qed.

Lemma append_nil_l s : "" +:+ s = s.
Proof. reflexivity. Qed.

Lemma append_nil_r s : s +:+ "" = s.
Proof. induction s as [|c s IH]; [done|]. by rewrite append_cons, IH. Qed.

Lemma digits_spec s :
  s = (RuleParser.digits s).1 +:+ (RuleParser.digits s).2 /\
  all_digits (RuleParser.digits s).1 = true /\
  no_digit_ahead (RuleParser.digits s).2.
Proof.
  induction s as [|c s (IH1 & IH2 & IH3)]; simpl.
  - repeat split.
  - destruct (JS.is_digit c) eqn:Hc.
    + destruct (RuleParser.digits s) as [ds rest]. cbn [fst snd] in *.
      rewrite append_cons, <- IH1. split; [done|]. split; [|done].
      cbn [all_digits]. by rewrite Hc.
    + cbn [fst snd all_digits no_digit_ahead]. repeat split. done.
Qed.

Lemma digits_app ds rest :
  all_digits ds = true -> no_digit_ahead rest ->
  RuleParser.digits (ds +:+ rest) = (ds, rest).
Proof.
  intros Hds Hrest. induction ds as [|c ds IH].
  - rewrite append_nil_l. destruct rest as [|c rest]; [done|].
    simpl in *. by rewrite Hrest.
  - simpl in Hds. apply andb_prop in Hds as [Hc Hds].
    rewrite append_cons. simpl. by rewrite Hc, IH.
Qed.

Lemma digits_all ds : all_digits ds = true -> RuleParser.digits ds = (ds, "").
Proof.
  intros Hds. rewrite <- (append_nil_r ds) at 1. by apply digits_app.
Qed.

(** The matcher accepts the language of [/^B(\d+)\/S(\d+)$/] and captures
    the two runs of digits. *)
Lemma match_rule_sound s d1 d2 :
  RuleParser.match_rule s = Some (d1, d2) ->
  s = "B" +:+ d1 +:+ "/S" +:+ d2 /\
  d1 <> "" /\ d2 <> "" /\ all_digits d1 = true /\ all_digits d2 = true.
Proof.
  unfold RuleParser.match_rule. destruct s as [|b s1]; [done|].
  destruct (Ascii.eqb_spec b "B") as [->|]; [|done].
  destruct (digits_spec s1) as (Hs1 & Hd1 & _).
  destruct (RuleParser.digits s1) as [g1 r1]. cbn [fst snd] in Hs1, Hd1.
  destruct g1 as [|c1 g1]; [done|].
  destruct r1 as [|slash [|s' s2]]; [done|done|].
  destruct (Ascii.eqb_spec slash "/") as [->|]; [|done].
  destruct (Ascii.eqb_spec s' "S") as [->|]; [|done].
  cbn [andb].
  destruct (digits_spec s2) as (Hs2 & Hd2 & _).
  destruct (RuleParser.digits s2) as [g2 r2]. cbn [fst snd] in Hs2, Hd2.
  destruct g2 as [|c2 g2]; [done|].
  destruct r2 as [|? ?]; [|done].
  intros [= <- <-]. rewrite append_nil_r in Hs2.
  split; [|done]. rewrite Hs1, Hs2. reflexivity.
Qed.

Lemma match_rule_complete d1 d2 :
  d1 <> "" -> d2 <> "" -> all_digits d1 = true -> all_digits d2 = true ->
  RuleParser.match_rule ("B" +:+ d1 +:+ "/S" +:+ d2) = Some (d1, d2).
Proof.
  intros Hn1 Hn2 Hd1 Hd2. unfold RuleParser.match_rule.
  rewrite append_cons, append_nil_l. rewrite digits_app by done.
  destruct d1 as [|c1 d1]; [done|].
  rewrite !append_cons, append_nil_l.
  rewrite digits_all by done. destruct d2 as [|c2 d2]; done.
Qed.

(** The parser returns exactly on the strings that, trimmed and in upper
    case, are a [B], one digit or more, [/S], and one digit or more. *)
Lemma parseRuleString_accepts ruleString r :
  RuleParser.parseRuleString ruleString = Ok r <->
  exists d1 d2,
    JS.toUpperCase (JS.trim ruleString) = "B" +:+ d1 +:+ "/S" +:+ d2 /\
    d1 <> "" /\ d2 <> "" /\ all_digits d1 = true /\ all_digits d2 = true /\
    r = {| birth := RuleParser.split_digits d1;
           survival := RuleParser.split_digits d2 |}.
Proof.
  unfold RuleParser.parseRuleString. split.
  - destruct (RuleParser.match_rule _) as [[d1 d2]|] eqn:Hm; [|done].
    intros [= <-]. apply match_rule_sound in Hm as (? & ? & ? & ? & ?).
    by exists d1, d2.
  - intros (d1 & d2 & -> & ? & ? & ? & ? & ->).
    by rewrite match_rule_complete.
Qed.

(** On every other string it throws, always with the same message. *)
Lemma parseRuleString_throws ruleString :
  (exists r, RuleParser.parseRuleString ruleString = Ok r) \/
  RuleParser.parseRuleString ruleString
    = Throw "Invalid rule format. Expected format: B3/S23".
Proof.
  unfold RuleParser.parseRuleString.
  destruct (RuleParser.match_rule _) as [[d1 d2]|]; [left; by eexists | by right].
Qed.

End Parser.

(** C7.  The parser requires a digit on each side: on ["B2/S"], which the
    repository's tests expect to parse to birth [2] and an empty survival
    side, it throws, and [isValidRuleString] answers false. *)
Theorem parseRuleString_rejects_empty_side :
  RuleParser.parseRuleString "B2/S"
    = Throw "Invalid rule format. Expected format: B3/S23" /\
  RuleParser.isValidRuleString "B2/S" = false /\
  RuleParser.parseRuleString " b36/s23 "
    = Ok {| birth := [3; 6]; survival := [2; 3] |}.
Proof. repeat split; reflexivity. Qed.

(** C6.  The round trip breaks on a rule with an empty side: the rule
    Seeds, [{ birth: [2], survival: [] }], is formatted as ["B2/S"], which
    the parser refuses. *)
Theorem roundtrip_fails_on_empty_side :
  let rule := {| birth_ref := 1; survival_ref := 2 |} in
  let st : store := <[1%positive := [2]]> (<[2%positive := []]> ∅) in
  RuleParser.read_rule rule st = Some {| birth := [2]; survival := [] |} /\
  fst <$> RuleParser.formatRuleString rule st = Some "B2/S" /\
  RuleParser.parseRuleString "B2/S"
    = Throw "Invalid rule format. Expected format: B3/S23".
Proof. repeat split; reflexivity. Qed.

(** ** The round trip on rules with two non-empty sides *)

Section RoundTrip.

Implicit Types (s d : string) (c : ascii).

Lemma toString_digit n :
  digit n ->
  exists c, JS.toString n = String c "" /\ JS.is_digit c = true /\ JS.Number c = n.
Proof.
  intros Hn. exists (ascii_of_N (Z.to_N (n + 48))).
  pose proof (for_digits (fun n =>
    let c := ascii_of_N (Z.to_N (n + 48)) in
    String.eqb (JS.toString n) (String c "") && JS.is_digit c && (JS.Number c =? n))
    eq_refl n Hn) as Hall.
  cbv zeta in Hall.
  apply andb_prop in Hall as [[Hs%String.eqb_eq Hd]%andb_prop Hv%Z.eqb_eq].
  done.
Qed.

Lemma join_digits l :
  Forall digit l ->
  all_digits (JS.join l) = true /\ RuleParser.split_digits (JS.join l) = l /\
  (l <> [] -> JS.join l <> "").
Proof.
  induction 1 as [|n l Hn _ (IH1 & IH2 & _)]; [done|].
  destruct (toString_digit n Hn) as (c & Hc & Hd & Hv).
  cbn [JS.join foldr]. rewrite Hc, append_cons, append_nil_l.
  fold (JS.join l). cbn [all_digits RuleParser.split_digits].
  rewrite Hd, IH1, IH2, Hv. done.
Qed.

Lemma digit_char c :
  JS.is_digit c = true -> JS.upper c = c /\ JS.is_white c = false.
Proof.
  unfold JS.is_digit, JS.upper, JS.is_white.
  intros [Hlo%N.leb_le Hhi%N.leb_le]%andb_prop.
  assert ((97 <=? N_of_ascii c)%N = false) as -> by (apply N.leb_gt; lia).
  assert ((N_of_ascii c <=? 13)%N = false) as -> by (apply N.leb_gt; lia).
  assert ((N_of_ascii c =? 32)%N = false) as -> by (apply N.eqb_neq; lia).
  by rewrite andb_false_r.
Qed.

Lemma toUpperCase_app s1 s2 :
  JS.toUpperCase (s1 +:+ s2) = JS.toUpperCase s1 +:+ JS.toUpperCase s2.
Proof.
  induction s1 as [|c s1 IH]; [done|].
  rewrite append_cons. cbn [JS.toUpperCase]. by rewrite IH, append_cons.
Qed.

Lemma toUpperCase_digits d : all_digits d = true -> JS.toUpperCase d = d.
Proof.
  induction d as [|c d IH]; [done|]. cbn [all_digits JS.toUpperCase].
  intros [Hc Hd]%andb_prop. rewrite IH by done.
  by destruct (digit_char c Hc) as [-> _].
Qed.

Lemma rev_app_app s1 s2 acc :
  String.rev_app (s1 +:+ s2) acc = String.rev_app s2 (String.rev_app s1 acc).
Proof.
  revert acc. induction s1 as [|c s1 IH]; intros acc; [done|].
  rewrite append_cons. cbn [String.rev_app]. apply IH.
Qed.

Lemma rev_app_rev_app s1 s2 acc :
  String.rev_app (String.rev_app s1 s2) acc = String.rev_app s2 (s1 +:+ acc).
Proof.
  revert s2 acc. induction s1 as [|c s1 IH]; intros s2 acc; [done|].
  cbn [String.rev_app]. rewrite IH. cbn [String.rev_app].
  by rewrite append_cons.
Qed.

Lemma rev_rev s : String.rev (String.rev s) = s.
Proof.
  unfold String.rev. rewrite rev_app_rev_app. cbn [String.rev_app].
  apply append_nil_r.
Qed.

Lemma rev_app_digits d acc :
  d <> "" -> all_digits d = true ->
  exists c t, String.rev_app d acc = String c t /\ JS.is_digit c = true.
Proof.
  revert acc. induction d as [|c d IH]; intros acc Hne Hd; [done|].
  cbn [all_digits] in Hd. apply andb_prop in Hd as [Hc Hd].
  cbn [String.rev_app]. destruct d as [|c' d].
  - by exists c, acc.
  - by apply IH.
Qed.

(** Nothing is trimmed from a string that starts with a character that is
    not white space and ends with a digit. *)
Lemma trim_id c s d :
  JS.is_white c = false -> d <> "" -> all_digits d = true ->
  JS.trim (String c (s +:+ d)) = String c (s +:+ d).
Proof.
  intros Hc Hne Hd. unfold JS.trim. cbn [JS.trimStart]. rewrite Hc.
  assert (Hrev : JS.trimStart (String.rev (String c (s +:+ d)))
                 = String.rev (String c (s +:+ d))).
  { unfold String.rev. rewrite <- append_cons, rev_app_app.
    destruct (rev_app_digits d (String.rev_app (String c s) "") Hne Hd)
      as (c' & t & -> & Hc').
    cbn [JS.trimStart]. by destruct (digit_char c' Hc') as [_ ->]. }
  rewrite Hrev. apply rev_rev.
Qed.

Lemma append_assoc s1 s2 s3 : (s1 +:+ s2) +:+ s3 = s1 +:+ (s2 +:+ s3).
Proof.
  induction s1 as [|c s1 IH]; [done|]. by rewrite !append_cons, IH.
Qed.

(** Formatting a rule object whose two arrays are non-empty and hold
    digits gives a string that parses to the two sorted arrays: the
    same digits on each side. *)
Lemma roundtrip_nonempty (rule : RuleObject) (st : store) (b s : list Z) :
  st !! birth_ref rule = Some b ->
  st !! survival_ref rule = Some s ->
  Forall digit b -> Forall digit s -> b <> [] -> s <> [] ->
  exists str st' r,
    RuleParser.formatRuleString rule st = Some (str, st') /\
    RuleParser.parseRuleString str = Ok r /\
    birth r ≡ₚ b /\ survival r ≡ₚ s.
Proof.
  intros Hb Hs Hdb Hds Hnb Hns.
  destruct (formatRuleString_result rule st b s Hb Hs Hdb Hds)
    as (b' & s' & st' & Hfmt & Hpb & Hps & _).
  exists ("B" +:+ JS.join b' +:+ "/S" +:+ JS.join s'), st',
    {| birth := b'; survival := s' |}.
  split; [done|]. split; [|done].
  assert (Hdb' : Forall digit b') by (by rewrite Hpb).
  assert (Hds' : Forall digit s') by (by rewrite Hps).
  assert (Hnb' : b' <> []) by (intros ->; by apply Permutation_nil_l in Hpb).
  assert (Hns' : s' <> []) by (intros ->; by apply Permutation_nil_l in Hps).
  destruct (join_digits b' Hdb') as (Hb1 & Hb2 & Hb3).
  destruct (join_digits s' Hds') as (Hs1 & Hs2 & Hs3).
  apply parseRuleString_accepts. exists (JS.join b'), (JS.join s').
  split; [|by rewrite Hb2, Hs2; auto].
  rewrite append_cons, append_nil_l.
  rewrite <- (append_assoc (JS.join b') "/S" (JS.join s')).
  rewrite trim_id by auto.
  rewrite (append_assoc (JS.join b') "/S" (JS.join s')).
  cbn [JS.toUpperCase]. rewrite toUpperCase_app, toUpperCase_digits by done.
  rewrite !append_cons, append_nil_l. cbn [JS.toUpperCase].
  by rewrite toUpperCase_digits.
Qed.

End RoundTrip.

(** ** The controller: one request in flight *)

Section Backpressure.

Import System.

Lemma steps_app (l1 l2 : list WorkerMessage) :
  length (List.filter is_step_request (l1 ++ l2))
  = (length (List.filter is_step_request l1)
     + length (List.filter is_step_request l2))%nat.
Proof. by rewrite List.filter_app, length_app. Qed.

Lemma answers_app (l1 l2 : list WorkerEvent) :
  length (List.filter answers_step (l1 ++ l2))
  = (length (List.filter answers_step l1)
     + length (List.filter answers_step l2))%nat.
Proof. by rewrite List.filter_app, length_app. Qed.

(** With the flag set, neither an animation callback, of whatever render,
    nor the manual step posts anything or changes the state. *)
Lemma busy_posts_nothing (h : Hook.State) closure now postOk :
  Hook.isProcessingRef h = true ->
  Hook.stepSimulation closure now postOk h = (h, []) /\ Hook.step postOk h = (h, []).
Proof.
  intros Hbusy. unfold Hook.stepSimulation, Hook.step. rewrite Hbusy.
  by rewrite !orb_true_r.
Qed.

Lemma invariant_initial workerOk : invariant (initial workerOk).
Proof.
  split.
  - cbn [initial Hook.mount fst hook Hook.gridState width height].
    unfold Hook.DEFAULT_GRID_SIZE. lia.
  - cbn [initial Hook.mount snd inbox].
    destruct workerOk; [|constructor].
    constructor; [|constructor]. unfold init_ok, Hook.DEFAULT_GRID_SIZE. lia.
  - unfold outstanding. cbn [initial Hook.mount fst snd hook inbox outbox
      Hook.isProcessingRef].
    by destruct workerOk.
Qed.

(** The callback of any render keeps the invariant: the flag it tests is
    a ref, not a value of its closure. *)
Lemma invariant_stepSimulation s closure now postOk :
  invariant s -> invariant (post (Hook.stepSimulation closure now postOk (hook s)) s).
Proof.
  intros [Hsize Hinits Hflag]. unfold Hook.stepSimulation.
  destruct (negb (Hook.workerRef (hook s))
            || negb (isRunning (Hook.render_config closure))
            || Hook.isProcessingRef (hook s)) eqn:Hguard.
  { split; cbn; rewrite ?app_nil_r; done. }
  apply orb_false_elim in Hguard as [_ Hidle].
  unfold outstanding in Hflag. rewrite Hidle in Hflag.
  destruct (Hook.interval_elapsed _ _ _); [|split; cbn; rewrite ?app_nil_r; try done;
    unfold outstanding; by rewrite Hidle].
  destruct postOk; split; cbn; rewrite ?app_nil_r; try done.
  - apply Forall_app. split; [done|]. by repeat constructor.
  - unfold outstanding. cbn. rewrite steps_app. cbn. lia.
Qed.

Lemma invariant_step s postOk :
  invariant s -> invariant (post (Hook.step postOk (hook s)) s).
Proof.
  intros [Hsize Hinits Hflag]. unfold Hook.step.
  destruct (negb (Hook.workerRef (hook s)) || Hook.isProcessingRef (hook s)) eqn:Hguard.
  { split; cbn; rewrite ?app_nil_r; done. }
  apply orb_false_elim in Hguard as [_ Hidle].
  unfold outstanding in Hflag. rewrite Hidle in Hflag.
  destruct postOk; split; cbn; rewrite ?app_nil_r; try done.
  - apply Forall_app. split; [done|]. by repeat constructor.
  - unfold outstanding. cbn. rewrite steps_app. cbn. lia.
Qed.

Lemma invariant_reset s postOk :
  invariant s -> invariant (post (Hook.reset postOk (hook s)) s).
Proof.
  intros [Hsize Hinits Hflag]. unfold Hook.reset.
  destruct (negb (Hook.workerRef (hook s))), postOk;
    split; cbn; rewrite ?app_nil_r; try done.
  - apply Forall_app. split; [done|]. by repeat constructor.
  - unfold outstanding in *. cbn. rewrite steps_app. cbn. lia.
Qed.

Lemma invariant_updateRule s r postOk :
  invariant s -> invariant (post (Hook.updateRule r postOk (hook s)) s).
Proof.
  intros [Hsize Hinits Hflag]. unfold Hook.updateRule.
  cbn [Hook.set_config Hook.workerRef].
  destruct (Hook.workerRef (hook s) && postOk);
    split; cbn; rewrite ?app_nil_r; try done.
  - apply Forall_app. split; [done|]. by repeat constructor.
  - unfold outstanding in *. cbn. rewrite steps_app. cbn. lia.
Qed.

(** An update of the hook that leaves the size of the grid and the flag
    alone keeps the invariant. *)
Lemma invariant_with_hook s (h : Hook.State) :
  width (Hook.gridState h) = width (Hook.gridState (hook s)) ->
  height (Hook.gridState h) = height (Hook.gridState (hook s)) ->
  Hook.isProcessingRef h = Hook.isProcessingRef (hook s) ->
  invariant s -> invariant (with_hook h s).
Proof.
  intros Hw Hh Hp [Hsize Hinits Hflag]. split; cbn.
  - by rewrite Hw, Hh.
  - done.
  - unfold outstanding in *. cbn. by rewrite Hp.
Qed.

Lemma invariant_cellClick s gridX gridY :
  invariant s -> invariant (with_hook (Canvas.cellClick gridX gridY (hook s)) s).
Proof.
  apply invariant_with_hook; unfold Canvas.cellClick;
    destruct (Canvas.getGridCoords _ _ _) as [[x y]|]; done.
Qed.

Lemma invariant_worker_run s fault : invariant s -> invariant (worker_run fault s).
Proof.
  intros Hinv. unfold worker_run.
  destruct (inbox s) as [|msg rest] eqn:Hin; [done|].
  destruct Hinv as [Hsize Hinits Hflag]. rewrite Hin in Hinits.
  apply Forall_cons_1 in Hinits as [Hmsg Hrest].
  unfold outstanding in Hflag. rewrite Hin in Hflag.
  destruct msg as [cs w h r | w h p | r]; cbn [Worker.onmessage].
  - destruct fault; split; cbn; try done;
      unfold outstanding; cbn; rewrite answers_app; cbn in *; lia.
  - cbn in Hmsg.
    destruct (Worker.createInitialGrid w h p) as [g|] eqn:Hg.
    + split; cbn; try done.
      unfold outstanding; cbn; rewrite answers_app; cbn in *; lia.
    + apply createInitialGrid_throws in Hg. lia.
  - split; cbn; try done.
    unfold outstanding; cbn; rewrite answers_app; cbn in *; lia.
Qed.

Lemma invariant_deliver s : invariant s -> invariant (deliver s).
Proof.
  intros Hinv. unfold deliver.
  destruct (outbox s) as [|ev rest] eqn:Hout; [done|].
  destruct Hinv as [Hsize Hinits Hflag].
  unfold outstanding in Hflag. rewrite Hout in Hflag.
  destruct ev as [[newState | initialState | r] |]; split; cbn; try done;
    unfold outstanding; cbn; cbn in Hflag;
    destruct (Hook.isProcessingRef (hook s)); lia.
Qed.

Lemma invariant_transition s e : invariant s -> invariant (transition s e).
Proof.
  destruct e; cbn [transition].
  - apply invariant_stepSimulation.
  - apply invariant_step.
  - apply invariant_reset.
  - apply invariant_updateRule.
  - by apply invariant_with_hook.
  - by apply invariant_with_hook.
  - apply invariant_cellClick.
  - apply invariant_worker_run.
  - apply invariant_deliver.
Qed.

Lemma invariant_run s events : invariant s -> invariant (run s events).
Proof.
  revert s. induction events as [|e events IH]; intros s Hs; [done|].
  cbn [run foldl]. apply IH. by apply invariant_transition.
Qed.

End Backpressure.

(** C3.  In every state the hook and its worker reach from the mount,
    through runs of animation callbacks (that of the current render and
    those of older renders, which closed over an older configuration and
    grid: the statement holds whatever a callback closed over), manual
    steps, resets, rule and speed changes, edits of cells, runs of the
    worker (that return a result or fail) and deliveries, at most one step
    request is outstanding, the in-flight flag is set exactly when one is,
    and with the flag set neither a callback, of whatever render, nor the
    manual step posts a request. *)
Theorem one_request_in_flight (workerOk : bool) (events : list System.Event) :
  let s := System.run (System.initial workerOk) events in
  (System.outstanding s <= 1)%nat /\
  (Hook.isProcessingRef (System.hook s) = true <-> System.outstanding s = 1%nat) /\
  (Hook.isProcessingRef (System.hook s) = true ->
   forall closure now postOk,
     (Hook.stepSimulation closure now postOk (System.hook s)).2 = [] /\
     (Hook.step postOk (System.hook s)).2 = []).
Proof.
  intros s.
  destruct (invariant_run (System.initial workerOk) events
              (invariant_initial workerOk)) as [_ _ Hflag].
  fold s in Hflag. rewrite Hflag.
  destruct (Hook.isProcessingRef (System.hook s)) eqn:Hbusy.
  - split; [lia|]. split; [done|]. intros _ closure now postOk.
    destruct (busy_posts_nothing (System.hook s) closure now postOk Hbusy) as [-> ->].
    done.
  - split; [lia|]. split; [split; [done | lia] | done].
Qed.

(** Play, a pause, and then the callback of the render in which the
    simulation was running: it posts a request although the simulation is
    paused, and a second run of it, or a manual step, posts nothing. *)
Lemma one_request_in_flight_witness :
  let running := {| Hook.render_config :=
                      {| rule := B3S23; speed := 100; isRunning := true |};
                    Hook.render_grid := Hook.gridState (System.hook (System.initial true)) |} in
  let s := System.run (System.initial true)
             [System.TogglePlayPause; System.TogglePlayPause;
              System.Tick running 1000 true; System.Tick running 2000 true;
              System.Step true] in
  (System.outstanding s <= 1)%nat /\
  (Hook.isProcessingRef (System.hook s) = true <-> System.outstanding s = 1%nat) /\
  (Hook.isProcessingRef (System.hook s) = true ->
   forall closure now postOk,
     (Hook.stepSimulation closure now postOk (System.hook s)).2 = [] /\
     (Hook.step postOk (System.hook s)).2 = []).
Proof.
  intros running.
  exact (one_request_in_flight true
           [System.TogglePlayPause; System.TogglePlayPause;
            System.Tick running 1000 true; System.Tick running 2000 true;
            System.Step true]).
Defined.

(** ** The controller: results and resets *)

Section Reset.

Import System.

#[local] Arguments Worker.simulationStep : simpl never.
#[local] Arguments Worker.createInitialGrid : simpl never.

(** A manual step, then a reset before the worker ran: both requests wait
    in the queue, the step first. *)
Lemma run_step_reset (s : State) :
  Hook.workerRef (hook s) = true -> Hook.isProcessingRef (hook s) = false ->
  inbox s = [] -> outbox s = [] ->
  run s [Step true; Reset true]
  = {| hook := Hook.set_isProcessing true (hook s);
       inbox := [ Hook.step_request (hook s);
                  INIT_GRID (width (Hook.gridState (hook s)))
                    (height (Hook.gridState (hook s))) None ];
       currentRule := currentRule s; outbox := [] |}.
Proof.
  destruct s as [[cfg g wr last busy] msgs r evs]. cbn.
  intros -> -> -> ->. reflexivity.
Qed.

(** The worker answers the step and the hook takes the answer: the grid
    is the next generation of the grid the step was issued on. *)
Lemma run_stale_result (h : Hook.State) (r : CellRule) (next : WorkerMessage) :
  run {| hook := Hook.set_isProcessing true h;
         inbox := [Hook.step_request h; next]; currentRule := r; outbox := [] |}
      [WorkerRun false; Deliver]
  = {| hook := Hook.set_isProcessing false
                 (Hook.set_cells
                    (Worker.simulationStep (cells (Hook.gridState h))
                       (width (Hook.gridState h)) (height (Hook.gridState h))
                       (rule (Hook.config h))) h);
       inbox := [next]; currentRule := r; outbox := [] |}.
Proof. by destruct h as [cfg g wr last busy]. Qed.

(** The worker answers a reset and the hook takes the answer: the grid is
    all zero. *)
Lemma run_init_result (hk : Hook.State) (r : CellRule) (w h : Z) :
  0 <= w * h ->
  run {| hook := hk; inbox := [INIT_GRID w h None]; currentRule := r; outbox := [] |}
      [WorkerRun false; Deliver]
  = {| hook := Hook.set_cells (replicate (Z.to_nat (w * h)) 0) hk;
       inbox := []; currentRule := r; outbox := [] |}.
Proof.
  intros Hsize. cbn [run foldl transition worker_run inbox Worker.onmessage].
  unfold Worker.createInitialGrid, JS.new_Uint8Array.
  rewrite decide_False by lia. reflexivity.
Qed.

Lemma run_app (s : State) (l1 l2 : list Event) :
  run s (l1 ++ l2) = run (run s l1) l2.
Proof. apply foldl_app. Qed.

(** The whole scenario up to the arrival of the step result. *)
Lemma run_step_reset_result (s : State) :
  Hook.workerRef (hook s) = true -> Hook.isProcessingRef (hook s) = false ->
  inbox s = [] -> outbox s = [] ->
  run s [Step true; Reset true; WorkerRun false; Deliver]
  = {| hook := Hook.set_isProcessing false
                 (Hook.set_cells
                    (Worker.simulationStep (cells (Hook.gridState (hook s)))
                       (width (Hook.gridState (hook s)))
                       (height (Hook.gridState (hook s)))
                       (rule (Hook.config (hook s)))) (hook s));
       inbox := [INIT_GRID (width (Hook.gridState (hook s)))
                   (height (Hook.gridState (hook s))) None];
       currentRule := currentRule s; outbox := [] |}.
Proof.
  intros Hw Hidle Hin Hout.
  change [Step true; Reset true; WorkerRun false; Deliver]
    with ([Step true; Reset true] ++ [WorkerRun false; Deliver]).
  rewrite run_app, run_step_reset by done. apply run_stale_result.
Qed.

End Reset.

(** C4, as the code has it.  Requests and results carry no sequence
    number, and the hook applies every step result it receives: it
    replaces the cells and clears the in-flight flag.  When a manual step is
    followed by a reset before the worker ran, the two requests wait in
    the order they were posted; the step result arrives first and is
    applied, although the reset was already requested, and the
    initialization result arrives last: once both are delivered the grid
    is the reset grid, all zero. *)
Theorem step_result_then_reset (s : System.State) :
  Hook.workerRef (System.hook s) = true ->
  Hook.isProcessingRef (System.hook s) = false ->
  System.inbox s = [] -> System.outbox s = [] ->
  0 <= width (Hook.gridState (System.hook s)) * height (Hook.gridState (System.hook s)) ->
  let g := Hook.gridState (System.hook s) in
  let stepped :=
    Worker.simulationStep (cells g) (width g) (height g)
      (rule (Hook.config (System.hook s))) in
  let s1 := System.run s [System.Step true; System.Reset true] in
  let s2 := System.run s1 [System.WorkerRun false; System.Deliver] in
  let s3 := System.run s2 [System.WorkerRun false; System.Deliver] in
  (forall newState h,
     Hook.onmessage (SIMULATION_RESULT newState) h
     = Hook.set_isProcessing false (Hook.set_cells newState h)) /\
  System.inbox s1
    = [ SIMULATION_STEP (cells g) (width g) (height g) (rule (Hook.config (System.hook s)));
        INIT_GRID (width g) (height g) None ] /\
  cells (Hook.gridState (System.hook s2)) = stepped /\
  Hook.isProcessingRef (System.hook s2) = false /\
  cells (Hook.gridState (System.hook s3)) = replicate (Z.to_nat (width g * height g)) 0 /\
  System.inbox s3 = [] /\ System.outbox s3 = [].
Proof.
  intros Hw Hidle Hin Hout Hsize g stepped s1 s2 s3.
  split; [done|].
  assert (H2 : s2 = System.run s
    [System.Step true; System.Reset true; System.WorkerRun false; System.Deliver])
    by (subst s2 s1; by rewrite <- run_app).
  rewrite run_step_reset_result in H2 by done.
  subst s1. rewrite run_step_reset by done.
  split; [done|]. subst s3. rewrite H2.
  split; [done|]. split; [done|].
  rewrite run_init_result by done. done.
Qed.

Lemma step_result_then_reset_witness :
  let s := {| System.hook :=
                {| Hook.config := Hook.DEFAULT_CONFIG;
                   Hook.gridState :=
                     {| width := 5; height := 5;
                        cells := [0;0;0;0;0; 0;0;1;0;0; 0;0;1;0;0;
                                  0;0;1;0;0; 0;0;0;0;0] |};
                   Hook.workerRef := true;
                   Hook.lastStepTimeRef := 0;
                   Hook.isProcessingRef := false |};
              System.inbox := []; System.currentRule := B3S23;
              System.outbox := [] |} in
  let s2 := System.run s [System.Step true; System.Reset true;
                          System.WorkerRun false; System.Deliver] in
  let s3 := System.run s2 [System.WorkerRun false; System.Deliver] in
  cells (Hook.gridState (System.hook s2))
    = [0;0;0;0;0; 0;0;0;0;0; 0;1;1;1;0; 0;0;0;0;0; 0;0;0;0;0] /\
  cells (Hook.gridState (System.hook s3)) = replicate 25 0.
Proof.
  intros s s2 s3.
  destruct (step_result_then_reset s) as (_ & _ & H2 & _ & H3 & _);
    [reflexivity | reflexivity | reflexivity | reflexivity | simpl; lia |].
  split; [exact H2 | exact H3].
Defined.

(** On the hook's own grid: the first glider is in place, a step is
    requested, and the reset is called before the result arrives.  The
    result of the step is then applied to the grid: the cell [(11, 9)],
    dead before the step and dead in a reset grid, is live. *)
Lemma stale_step_result_is_applied :
  let s0 := System.run (System.initial true) [System.WorkerRun false; System.Deliver] in
  let s1 := System.run s0 [System.Step true; System.Reset true] in
  let s2 := System.run s1 [System.WorkerRun false; System.Deliver] in
  System.inbox s1
    = [ Hook.step_request (System.hook s0); INIT_GRID 200 200 None ] /\
  cell_at (cells (Hook.gridState (System.hook s1))) 200 11 9 = Some 0 /\
  cell_at (cells (Hook.gridState (System.hook s2))) 200 11 9 = Some 1.
Proof.
  intros s0 s1 s2.
  assert (Hw : Hook.workerRef (System.hook s0) = true) by reflexivity.
  assert (Hidle : Hook.isProcessingRef (System.hook s0) = false) by reflexivity.
  assert (Hin : System.inbox s0 = []) by reflexivity.
  assert (Hout : System.outbox s0 = []) by reflexivity.
  assert (H2 : s2 = System.run s0
    [System.Step true; System.Reset true; System.WorkerRun false; System.Deliver])
    by (subst s2 s1; by rewrite <- run_app).
  rewrite run_step_reset_result in H2 by done.
  subst s1. rewrite run_step_reset by done.
  split; [reflexivity|]. split; [vm_compute; reflexivity|].
  rewrite H2. cbn [System.hook Hook.gridState Hook.set_isProcessing Hook.set_cells cells].
  refine (eq_trans (simulationStep_cell _ 200 200 _ 11 9 _ _ _) _).
  - vm_compute. reflexivity.
  - lia.
  - lia.
  - vm_compute. reflexivity.
Qed.

(** * Further properties of the code *)

(** ** The step engine on any input *)

Section Engine.

Lemma filter_length_le {A} (f : A -> bool) (l : list A) :
  (length (List.filter f l) <= length l)%nat.
Proof.
  induction l as [|a l IH]; simpl; [lia|]. destruct (f a); simpl; lia.
Qed.

Lemma writes_all_bits {A} (idx : A -> option Z) (val : A -> Z) cells (l : list A) :
  (forall a, is_bit (val a)) ->
  Forall is_bit cells -> Forall is_bit (writes idx val cells l).
Proof.
  intros Hval. unfold writes. revert cells.
  induction l as [|a l IH]; intros cells Hbits; [done|].
  cbn [foldl]. apply IH. unfold JS.set.
  destruct (idx a) as [i|]; [|done]. case_decide; [done|].
  apply Forall_insert; [done|]. destruct (Hval a) as [-> | ->]; [by left | by right].
Qed.

(** Writing zeros to a buffer of zeros changes nothing. *)
Lemma writes_zeros {A} (idx : A -> option Z) (val : A -> Z) n (l : list A) :
  Forall (fun a => val a = 0) l ->
  writes idx val (replicate n 0) l = replicate n 0.
Proof.
  unfold writes. induction 1 as [|a l Ha _ IH]; [done|].
  cbn [foldl]. rewrite Ha. unfold JS.set.
  destruct (idx a) as [i|]; [|done]. case_decide; [done|].
  change (0 mod 256) with 0. by rewrite insert_replicate.
Qed.

Lemma scan_empty w h : w <= 0 \/ h <= 0 -> scan w h = [].
Proof.
  intros Hwh. apply elem_of_nil_inv. intros p Hp%elem_of_scan. lia.
Qed.

Lemma simulationStep_bits cells w h r :
  Forall is_bit (Worker.simulationStep cells w h r).
Proof.
  rewrite simulationStep_writes. apply writes_all_bits.
  - intros p. apply next_cell_bit.
  - apply Forall_replicate. by left.
Qed.

(** Every cell of the new buffer, by its index. *)
Lemma simulationStep_lookup cells w h r i :
  0 < w -> Z.of_nat (length cells) = w * h -> 0 <= i < w * h ->
  JS.get (Worker.simulationStep cells w h r) (Some i)
  = Some (next_cell cells w h r (i mod w) (i / w)).
Proof.
  intros Hw Hlen Hi.
  pose proof (Z.div_mod i w ltac:(lia)) as Hdm.
  pose proof (Z.mod_pos_bound i w Hw) as Hm.
  assert (0 <= i / w < h)
    by (split; [apply Z.div_pos; lia | apply Z.div_lt_upper_bound; nia]).
  rewrite <- (simulationStep_cell cells w h r (i mod w) (i / w)) by done.
  unfold cell_at. do 2 f_equal. lia.
Qed.

Lemma filter_none {A} (f : A -> bool) (l : list A) :
  (forall a, f a = false) -> List.filter f l = [].
Proof.
  intros Hf. induction l as [|a l IH]; simpl; [done|]. by rewrite Hf.
Qed.

Lemma get_dead n oi : JS.is_one (JS.get (replicate n 0) oi) = false.
Proof.
  destruct oi as [i|]; [|done]. unfold JS.get. case_decide; [done|].
  destruct (replicate n 0 !! Z.to_nat i) as [c|] eqn:Hc; [|done].
  by apply lookup_replicate in Hc as [-> _].
Qed.

(** On a buffer of dead cells every count is zero. *)
Lemma countNeighbors_dead n x y w h :
  Worker.countNeighbors (replicate n 0) x y w h = 0.
Proof.
  rewrite countNeighbors_unroll, count_foldl.
  rewrite filter_none; [done|]. intros d. apply get_dead.
Qed.

Lemma cell_at_dead n w x y : JS.is_one (cell_at (replicate n 0) w x y) = false.
Proof. apply get_dead. Qed.

End Engine.

(** X1.  The count of a cell is between 0 and 8, on any buffer and for
    any coordinates and sizes. *)
Theorem countNeighbors_range cells x y w h :
  0 <= Worker.countNeighbors cells x y w h <= 8.
Proof.
  rewrite countNeighbors_unroll, count_foldl.
  pose proof (filter_length_le
    (fun d => JS.is_one (JS.get cells
       (Worker.index_of (JS.rem (x + d.1 + w) w) (JS.rem (y + d.2 + h) h) w)))
    offsets) as Hle.
  change (length offsets) with 8%nat in Hle. lia.
Qed.

(** X2.  Whatever the buffer, the sizes and the rule, a step returns a
    buffer of the length of its input whose cells are all 0 or 1. *)
Theorem simulationStep_buffer cells w h r :
  length (Worker.simulationStep cells w h r) = length cells /\
  Forall is_bit (Worker.simulationStep cells w h r).
Proof.
  split; [apply simulationStep_length | apply simulationStep_bits].
Qed.

(** X3.  With a width or a height that is not positive the loops do not
    run: the step returns an all-zero buffer of the length of its
    input. *)
Theorem simulationStep_no_area cells w h r :
  w <= 0 \/ h <= 0 ->
  Worker.simulationStep cells w h r = replicate (length cells) 0.
Proof.
  intros Hwh. by rewrite simulationStep_writes, scan_empty.
Qed.

Lemma simulationStep_no_area_witness :
  Worker.simulationStep [1; 1; 0] 0 3 B3S23 = replicate (length [1; 1; 0]) 0.
Proof. apply simulationStep_no_area. left. lia. Defined.

(** X4.  When 0 is not a birth count, a buffer of dead cells stays dead,
    whatever its length and the sizes given. *)
Theorem dead_stays_dead n w h r :
  0 ∉ birth r ->
  Worker.simulationStep (replicate n 0) w h r = replicate n 0.
Proof.
  intros Hb. rewrite simulationStep_writes, length_replicate.
  apply writes_zeros. apply Forall_forall. intros p _.
  unfold next_cell. rewrite cell_at_dead, countNeighbors_dead.
  destruct (JS.includes (birth r) 0) eqn:Hin; [|done].
  by apply includes_spec in Hin.
Qed.

Lemma dead_stays_dead_witness :
  Worker.simulationStep (replicate 12 0) 4 3 B3S23 = replicate 12 0.
Proof.
  apply dead_stays_dead. unfold B3S23. cbn [birth].
  intros Hin%list_elem_of_singleton. discriminate.
Defined.

(** X5.  When 0 is a birth count, a dead grid of positive width and
    height comes to life everywhere in one step. *)
Theorem dead_comes_alive w h r :
  0 < w -> 0 < h -> 0 ∈ birth r ->
  Worker.simulationStep (replicate (Z.to_nat (w * h)) 0) w h r
  = replicate (Z.to_nat (w * h)) 1.
Proof.
  intros Hw Hh Hb. apply list_eq. intros i.
  destruct (decide (i < Z.to_nat (w * h))%nat) as [Hi|Hi].
  - rewrite lookup_replicate_2 by done.
    pose proof (simulationStep_lookup (replicate (Z.to_nat (w * h)) 0) w h r
                  (Z.of_nat i) Hw) as Hl.
    rewrite length_replicate in Hl. unfold JS.get in Hl.
    rewrite decide_False, Nat2Z.id in Hl by lia. rewrite Hl by nia.
    unfold next_cell. rewrite cell_at_dead, countNeighbors_dead.
    apply includes_spec in Hb. by rewrite Hb.
  - rewrite (lookup_ge_None_2 (Worker.simulationStep _ _ _ _))
      by (rewrite simulationStep_length, length_replicate; lia).
    rewrite lookup_ge_None_2 by (rewrite length_replicate; lia). done.
Qed.

Lemma dead_comes_alive_witness :
  Worker.simulationStep (replicate (Z.to_nat (2 * 3)) 0) 2 3
    {| birth := [0]; survival := [] |}
  = replicate (Z.to_nat (2 * 3)) 1.
Proof.
  apply dead_comes_alive; [lia | lia |]. cbn [birth]. apply list_elem_of_here.
Defined.

(** ** Grid creation on any pattern *)

Section Patterns.

Lemma get_nat (cells : list Z) (i : nat) :
  JS.get cells (Some (Z.of_nat i)) = cells !! i.
Proof. unfold JS.get. rewrite decide_False by lia. by rewrite Nat2Z.id. Qed.

(** After writes of one value, a cell holds it when some write aimed at
    the cell, and is as before otherwise. *)
Lemma get_writes_const {A} (idx : A -> option Z) (v : Z) cells (l : list A) j :
  0 <= j < Z.of_nat (length cells) ->
  JS.get (writes idx (fun _ => v) cells l) (Some j)
  = if decide (Exists (fun a => idx a = Some j) l)
    then Some (v mod 256) else JS.get cells (Some j).
Proof.
  intros Hj. case_decide as Hex.
  - apply get_writes_hit; [done | by apply Forall_forall | by right].
  - apply get_writes_untouched. apply not_Exists_Forall; [intros a; apply _ | done].
Qed.

Lemma writes_const_same_set {A} (idx : A -> option Z) (v : Z) cells (l l' : list A) :
  (forall a, a ∈ l <-> a ∈ l') ->
  writes idx (fun _ => v) cells l = writes idx (fun _ => v) cells l'.
Proof.
  intros Hset. apply list_eq. intros i.
  destruct (decide (i < length cells)%nat) as [Hi|Hi].
  - rewrite <- !get_nat, !get_writes_const by lia.
    assert (Hiff : Exists (fun a => idx a = Some (Z.of_nat i)) l
                   <-> Exists (fun a => idx a = Some (Z.of_nat i)) l').
    { rewrite !Exists_exists. by setoid_rewrite Hset. }
    repeat case_decide; tauto.
  - rewrite !lookup_ge_None_2; [done | |]; rewrite length_writes; lia.
Qed.


End Patterns.

(** X6.  The grid depends on the set of the pattern's positions only:
    neither their order nor their repetition matters, whatever the size. *)
Theorem createInitialGrid_set w h (ps ps' : list CellPosition) :
  (forall p, p ∈ ps <-> p ∈ ps') ->
  Worker.createInitialGrid w h (Some ps) = Worker.createInitialGrid w h (Some ps').
Proof.
  intros Hset. unfold Worker.createInitialGrid.
  destruct (JS.new_Uint8Array (w * h)) as [cells|]; [|done].
  cbn [mbind option_bind]. f_equal.
  exact (writes_const_same_set
    (fun p => Worker.index_of (JS.rem (pos_x p + w) w) (JS.rem (pos_y p + h) h) w)
    1 cells ps ps' Hset).
Qed.

Lemma createInitialGrid_set_witness :
  Worker.createInitialGrid 4 4
    (Some [ {| pos_x := 1; pos_y := 2 |}; {| pos_x := 3; pos_y := 0 |} ])
  = Worker.createInitialGrid 4 4
      (Some [ {| pos_x := 3; pos_y := 0 |}; {| pos_x := 1; pos_y := 2 |};
              {| pos_x := 3; pos_y := 0 |} ]).
Proof.
  apply createInitialGrid_set. intros p.
  rewrite !elem_of_cons, !elem_of_nil. tauto.
Defined.



(** ** The parser on any string *)

Section Language.

Implicit Types (s d pre post : string) (c : ascii).

Lemma Number_digit c : JS.is_digit c = true -> digit (JS.Number c).
Proof.
  unfold JS.is_digit, JS.Number, digit.
  intros [Hlo%N.leb_le Hhi%N.leb_le]%andb_prop. lia.
Qed.

Lemma split_digits_digit d :
  all_digits d = true -> Forall digit (RuleParser.split_digits d).
Proof.
  induction d as [|c d IH]; [constructor|]. cbn [all_digits RuleParser.split_digits].
  intros [Hc Hd]%andb_prop. constructor; [by apply Number_digit | by apply IH].
Qed.

Lemma split_digits_nil d : RuleParser.split_digits d = [] -> d = "".
Proof. by destruct d. Qed.

End Language.

(** X8.  The language of the parser, among the strings of ASCII
    characters.  On such a string it returns a rule exactly when the
    string, without the ASCII white space at its ends and with its
    letters [a] to [z] in upper case, is a [B], one digit or more, [/S]
    and one digit or more, and the rule holds the digits in the order they
    are written; on every other ASCII string it throws the format error;
    [isValidRuleString] is true exactly where it returns. *)
Theorem parseRuleString_language ruleString :
  all_ascii ruleString = true ->
  (forall r,
     RuleParser.parseRuleString ruleString = Ok r <->
     exists d1 d2,
       JS.toUpperCase (JS.trim ruleString) = "B" +:+ d1 +:+ "/S" +:+ d2 /\
       d1 <> "" /\ d2 <> "" /\ all_digits d1 = true /\ all_digits d2 = true /\
       r = {| birth := RuleParser.split_digits d1;
              survival := RuleParser.split_digits d2 |}) /\
  ((exists r, RuleParser.parseRuleString ruleString = Ok r) \/
   RuleParser.parseRuleString ruleString
     = Throw "Invalid rule format. Expected format: B3/S23") /\
  (RuleParser.isValidRuleString ruleString = true <->
   exists r, RuleParser.parseRuleString ruleString = Ok r).
Proof.
  intros _.
  split; [intros r; apply parseRuleString_accepts|].
  split; [apply parseRuleString_throws|].
  unfold RuleParser.isValidRuleString.
  destruct (RuleParser.parseRuleString ruleString) as [r|msg].
  - split; [by exists r | done].
  - split; [done | by intros [r ?]].
Qed.

(** A rule in lower case after a space is accepted; one with a side
    missing is not. *)
Lemma parseRuleString_language_witness :
  (RuleParser.isValidRuleString " b36/s23" = true <->
   exists r, RuleParser.parseRuleString " b36/s23" = Ok r) /\
  ((exists r, RuleParser.parseRuleString "B3/S" = Ok r) \/
   RuleParser.parseRuleString "B3/S"
     = Throw "Invalid rule format. Expected format: B3/S23").
Proof.
  split.
  - exact (proj2 (proj2 (parseRuleString_language " b36/s23" eq_refl))).
  - exact (proj1 (proj2 (parseRuleString_language "B3/S" eq_refl))).
Defined.

(** X9.  A rule the parser returns has two non-empty sides of digits from
    0 to 9: the digit 9, a count no cell can have, is accepted, and an
    empty side never comes out. *)
Theorem parseRuleString_output ruleString r :
  RuleParser.parseRuleString ruleString = Ok r ->
  birth r <> [] /\ survival r <> [] /\
  Forall digit (birth r) /\ Forall digit (survival r).
Proof.
  intros (d1 & d2 & _ & Hn1 & Hn2 & Hd1 & Hd2 & ->)%parseRuleString_accepts.
  cbn [birth survival]. split; [|split; [|split]].
  - intros Hnil%split_digits_nil. done.
  - intros Hnil%split_digits_nil. done.
  - by apply split_digits_digit.
  - by apply split_digits_digit.
Qed.

Lemma parseRuleString_output_witness :
  birth {| birth := [3; 9]; survival := [2; 3; 3] |} <> [] /\
  survival {| birth := [3; 9]; survival := [2; 3; 3] |} <> [] /\
  Forall digit (birth {| birth := [3; 9]; survival := [2; 3; 3] |}) /\
  Forall digit (survival {| birth := [3; 9]; survival := [2; 3; 3] |}).
Proof. apply (parseRuleString_output "b39/s233"). reflexivity. Defined.

(** ** White space and case *)

Section Insensitive.

Implicit Types (s t pre post acc : string) (c : ascii).

Lemma upper_letter c :
  (97 <=? N_of_ascii c)%N && (N_of_ascii c <=? 122)%N = true ->
  N_of_ascii (JS.upper c) = (N_of_ascii c - 32)%N.
Proof.
  intros Hc. unfold JS.upper. rewrite Hc.
  apply andb_prop in Hc as [Hlo%N.leb_le Hhi%N.leb_le].
  apply N_ascii_embedding. lia.
Qed.

Lemma upper_white c : JS.is_white (JS.upper c) = JS.is_white c.
Proof.
  destruct ((97 <=? N_of_ascii c)%N && (N_of_ascii c <=? 122)%N) eqn:Hc.
  - unfold JS.is_white. rewrite (upper_letter c Hc).
    apply andb_prop in Hc as [Hlo%N.leb_le Hhi%N.leb_le].
    rewrite !(proj2 (N.leb_gt _ 13)) by lia.
    rewrite !(proj2 (N.eqb_neq _ 32)) by lia. by rewrite !andb_false_r.
  - unfold JS.upper. by rewrite Hc.
Qed.

Lemma upper_upper c : JS.upper (JS.upper c) = JS.upper c.
Proof.
  destruct ((97 <=? N_of_ascii c)%N && (N_of_ascii c <=? 122)%N) eqn:Hc.
  - unfold JS.upper at 1. rewrite (upper_letter c Hc).
    apply andb_prop in Hc as [Hlo%N.leb_le Hhi%N.leb_le].
    by rewrite (proj2 (N.leb_gt 97 _)) by lia.
  - unfold JS.upper. by rewrite !Hc.
Qed.

Lemma toUpperCase_twice s : JS.toUpperCase (JS.toUpperCase s) = JS.toUpperCase s.
Proof.
  induction s as [|c s IH]; [done|]. cbn [JS.toUpperCase].
  by rewrite upper_upper, IH.
Qed.

Lemma toUpperCase_trimStart s :
  JS.trimStart (JS.toUpperCase s) = JS.toUpperCase (JS.trimStart s).
Proof.
  induction s as [|c s IH]; [done|]. cbn [JS.toUpperCase JS.trimStart].
  rewrite upper_white. by destruct (JS.is_white c).
Qed.

Lemma toUpperCase_rev_app s acc :
  String.rev_app (JS.toUpperCase s) (JS.toUpperCase acc)
  = JS.toUpperCase (String.rev_app s acc).
Proof.
  revert acc. induction s as [|c s IH]; intros acc; [done|].
  cbn [JS.toUpperCase String.rev_app]. apply (IH (String c acc)).
Qed.

Lemma toUpperCase_rev s : String.rev (JS.toUpperCase s) = JS.toUpperCase (String.rev s).
Proof. apply (toUpperCase_rev_app s ""). Qed.

Lemma toUpperCase_trim s : JS.trim (JS.toUpperCase s) = JS.toUpperCase (JS.trim s).
Proof.
  unfold JS.trim.
  by rewrite toUpperCase_trimStart, toUpperCase_rev, toUpperCase_trimStart,
    toUpperCase_rev.
Qed.

Lemma rev_app_acc s acc : String.rev_app s acc = String.rev s +:+ acc.
Proof.
  revert acc. induction s as [|c s IH]; intros acc; [done|].
  unfold String.rev. cbn [String.rev_app].
  rewrite (IH (String c acc)), (IH (String c "")).
  by rewrite append_assoc, append_cons, append_nil_l.
Qed.

Lemma rev_append s t : String.rev (s +:+ t) = String.rev t +:+ String.rev s.
Proof. unfold String.rev at 1. by rewrite rev_app_app, rev_app_acc. Qed.

Lemma all_white_app s t : all_white (s +:+ t) = all_white s && all_white t.
Proof.
  induction s as [|c s IH]; [done|]. rewrite append_cons. cbn [all_white].
  by rewrite IH, andb_assoc.
Qed.

Lemma all_white_rev s : all_white (String.rev s) = all_white s.
Proof.
  induction s as [|c s IH]; [done|].
  change (String c s) with (String c "" +:+ s) at 1.
  rewrite rev_append, all_white_app, IH. cbn. by rewrite andb_true_r, andb_comm.
Qed.

Lemma trimStart_white pre s :
  all_white pre = true -> JS.trimStart (pre +:+ s) = JS.trimStart s.
Proof.
  induction pre as [|c pre IH]; [done|]. cbn [all_white].
  intros [Hc Hpre]%andb_prop. rewrite append_cons. cbn [JS.trimStart].
  rewrite Hc. by apply IH.
Qed.

Lemma trimStart_all_white s : all_white s = true -> JS.trimStart s = "".
Proof.
  intros Hs. rewrite <- (append_nil_r s). by rewrite trimStart_white.
Qed.

Lemma trimStart_app s post :
  all_white s = false -> JS.trimStart (s +:+ post) = JS.trimStart s +:+ post.
Proof.
  induction s as [|c s IH]; [done|]. cbn [all_white].
  rewrite append_cons. cbn [JS.trimStart].
  destruct (JS.is_white c); [apply IH|]. by rewrite append_cons.
Qed.

Lemma trimStart_keeps s : all_white s = false -> all_white (JS.trimStart s) = false.
Proof.
  induction s as [|c s IH]; [done|]. cbn [all_white JS.trimStart].
  destruct (JS.is_white c) eqn:Hc; [apply IH|]. intros _. cbn [all_white].
  by rewrite Hc.
Qed.

Lemma trim_padding pre s post :
  all_white pre = true -> all_white post = true ->
  JS.trim (pre +:+ s +:+ post) = JS.trim s.
Proof.
  intros Hpre Hpost. unfold JS.trim. rewrite trimStart_white by done.
  destruct (all_white s) eqn:Hs.
  - rewrite (trimStart_all_white (s +:+ post))
      by (rewrite all_white_app, Hs, Hpost; done).
    by rewrite (trimStart_all_white s).
  - rewrite trimStart_app by done. rewrite rev_append.
    rewrite trimStart_white by (by rewrite all_white_rev). done.
Qed.

End Insensitive.

(** X10.  On strings of ASCII characters the parser does not see the
    case of the letters nor the ASCII white space around the rule:
    padding such a string with ASCII white space on both sides and
    putting its letters [a] to [z] in upper case changes neither the rule
    returned nor the error thrown. *)
Theorem parseRuleString_insensitive pre ruleString post :
  all_ascii ruleString = true ->
  all_white pre = true -> all_white post = true ->
  RuleParser.parseRuleString (pre +:+ JS.toUpperCase ruleString +:+ post)
  = RuleParser.parseRuleString ruleString.
Proof.
  intros _ Hpre Hpost. unfold RuleParser.parseRuleString.
  by rewrite trim_padding, toUpperCase_trim, toUpperCase_twice.
Qed.

Lemma parseRuleString_insensitive_witness :
  RuleParser.parseRuleString ("  " +:+ JS.toUpperCase "b36/s23" +:+ " ")
  = RuleParser.parseRuleString "b36/s23".
Proof. apply parseRuleString_insensitive; reflexivity. Defined.

(** ** Formatting, again and back *)

Section Canonical.

Lemma sort_of_sorted l : Forall digit l -> Sorted Z.le l -> JS.sort l = l.
Proof.
  intros Hd Hs. induction Hs as [|a l Hl IH Hhd]; [done|]. simpl.
  apply Forall_cons_1 in Hd as [Ha Hd]. rewrite IH by done.
  destruct l as [|c l]; [done|]. simpl.
  apply HdRel_inv in Hhd. apply Forall_cons_1 in Hd as [Hc _].
  rewrite before_digits by done. destruct (Z.ltb_spec c a); [lia|done].
Qed.

(** Nothing is trimmed from a string whose first and last characters are
    not white space. *)
Lemma trim_id_ends (c c' : ascii) (s : string) :
  JS.is_white c = false -> JS.is_white c' = false ->
  JS.trim (String c (s +:+ String c' "")) = String c (s +:+ String c' "").
Proof.
  intros Hc Hc'. unfold JS.trim. cbn [JS.trimStart]. rewrite Hc.
  rewrite <- append_cons, rev_append.
  change (String.rev (String c' "")) with (String c' "").
  rewrite append_cons, append_nil_l. cbn [JS.trimStart]. rewrite Hc'.
  rewrite <- (append_nil_l (String.rev (String c s))), <- append_cons.
  change (String c' "") with (String.rev (String c' "")).
  by rewrite <- rev_append, rev_rev.
Qed.

(** A formatted string with an empty side is refused. *)
Lemma parse_empty_birth d :
  all_digits d = true ->
  RuleParser.parseRuleString ("B" +:+ "" +:+ "/S" +:+ d)
  = Throw "Invalid rule format. Expected format: B3/S23".
Proof.
  intros Hd. unfold RuleParser.parseRuleString.
  destruct d as [|c d]; [done|].
  rewrite !append_cons, !append_nil_l.
  change (String "/" (String "S" (String c d))) with ("/S" +:+ String c d).
  rewrite trim_id by done.
  cbn [JS.toUpperCase]. rewrite !append_cons, append_nil_l. cbn [JS.toUpperCase].
  reflexivity.
Qed.

Lemma parse_empty_survival d :
  all_digits d = true ->
  RuleParser.parseRuleString ("B" +:+ d +:+ "/S" +:+ "")
  = Throw "Invalid rule format. Expected format: B3/S23".
Proof.
  intros Hd. unfold RuleParser.parseRuleString.
  rewrite append_cons, append_nil_l, append_nil_r.
  change "/S" with ("/" +:+ String "S" ""). rewrite <- append_assoc.
  rewrite trim_id_ends by done.
  cbn [JS.toUpperCase]. rewrite !toUpperCase_app, toUpperCase_digits by done.
  change (JS.toUpperCase "/") with "/". change (JS.toUpperCase "S") with "S".
  rewrite append_assoc. change ("/" +:+ "S") with "/S".
  unfold RuleParser.match_rule. cbn [Ascii.eqb Bool.eqb].
  rewrite digits_app by done.
  destruct d as [|c d]; reflexivity.
Qed.

End Canonical.

(** X11.  Formatting is idempotent: on a rule object of digits, a second
    call returns the string of the first and leaves the store as the
    first left it. *)
Theorem formatRuleString_idempotent (rule : RuleObject) (st st' : store) b s str :
  st !! birth_ref rule = Some b ->
  st !! survival_ref rule = Some s ->
  Forall digit b -> Forall digit s ->
  RuleParser.formatRuleString rule st = Some (str, st') ->
  RuleParser.formatRuleString rule st' = Some (str, st').
Proof.
  intros Hb Hs Hdb Hds Hfmt.
  destruct (formatRuleString_result rule st b s Hb Hs Hdb Hds)
    as (b' & s' & st'' & Hfmt' & Hpb & Hps & Hsb & Hss & Hlb & Hls & _).
  rewrite Hfmt in Hfmt'. injection Hfmt' as -> <-.
  assert (Hdb' : Forall digit b') by (by rewrite Hpb).
  assert (Hds' : Forall digit s') by (by rewrite Hps).
  unfold RuleParser.formatRuleString.
  rewrite Hlb. cbn [mbind option_bind].
  rewrite (sort_of_sorted b') by done. rewrite (insert_id st') by done.
  rewrite Hls. cbn [mbind option_bind].
  rewrite (sort_of_sorted s') by done. by rewrite (insert_id st') by done.
Qed.

Lemma formatRuleString_idempotent_witness :
  let rule := {| birth_ref := 1; survival_ref := 2 |} in
  let st : store := <[1%positive := [3; 1]]> (<[2%positive := [3; 2; 1]]> ∅) in
  let st' : store := <[2%positive := [1; 2; 3]]> (<[1%positive := [1; 3]]> st) in
  RuleParser.formatRuleString rule st' = Some ("B13/S123", st').
Proof.
  intros rule st st'.
  apply (formatRuleString_idempotent rule st st' [3; 1] [3; 2; 1]).
  - reflexivity.
  - reflexivity.
  - repeat (constructor; [unfold digit; lia|]). constructor.
  - repeat (constructor; [unfold digit; lia|]). constructor.
  - reflexivity.
Defined.

(** X12.  The string is canonical: two rule objects of digits whose
    birth arrays hold the same digits, and whose survival arrays do, are
    formatted to the same string, in whatever order the digits are. *)
Theorem formatRuleString_canonical (r1 r2 : RuleObject) (st1 st2 : store) b1 s1 b2 s2 :
  st1 !! birth_ref r1 = Some b1 -> st1 !! survival_ref r1 = Some s1 ->
  st2 !! birth_ref r2 = Some b2 -> st2 !! survival_ref r2 = Some s2 ->
  Forall digit b1 -> Forall digit s1 ->
  b1 ≡ₚ b2 -> s1 ≡ₚ s2 ->
  exists str,
    fst <$> RuleParser.formatRuleString r1 st1 = Some str /\
    fst <$> RuleParser.formatRuleString r2 st2 = Some str.
Proof.
  intros Hb1 Hs1 Hb2 Hs2 Hdb Hds Hpb Hps.
  assert (Hdb2 : Forall digit b2) by (by rewrite <- Hpb).
  assert (Hds2 : Forall digit s2) by (by rewrite <- Hps).
  destruct (formatRuleString_result r1 st1 b1 s1 Hb1 Hs1 Hdb Hds)
    as (b1' & s1' & st1' & -> & Hp1 & Hq1 & Hsb1 & Hss1 & _).
  destruct (formatRuleString_result r2 st2 b2 s2 Hb2 Hs2 Hdb2 Hds2)
    as (b2' & s2' & st2' & -> & Hp2 & Hq2 & Hsb2 & Hss2 & _).
  assert (b1' = b2') as ->
    by (apply (Sorted_unique Z.le); [done | done | by rewrite Hp1, Hp2]).
  assert (s1' = s2') as ->
    by (apply (Sorted_unique Z.le); [done | done | by rewrite Hq1, Hq2]).
  by eexists.
Qed.

Lemma formatRuleString_canonical_witness :
  exists str,
    fst <$> RuleParser.formatRuleString {| birth_ref := 1; survival_ref := 2 |}
              (<[1%positive := [6; 3]]> (<[2%positive := [3; 2]]> ∅)) = Some str /\
    fst <$> RuleParser.formatRuleString {| birth_ref := 5; survival_ref := 7 |}
              (<[5%positive := [3; 6]]> (<[7%positive := [2; 3]]> ∅)) = Some str.
Proof.
  apply (formatRuleString_canonical _ _ _ _ [6; 3] [3; 2] [3; 6] [2; 3]);
    try reflexivity.
  - repeat (constructor; [unfold digit; lia|]). constructor.
  - repeat (constructor; [unfold digit; lia|]). constructor.
  - apply Permutation_swap.
  - apply Permutation_swap.
Defined.

(** The string of two non-empty arrays of digits parses to them. *)
Lemma parse_join (b s : list Z) :
  Forall digit b -> Forall digit s -> b <> [] -> s <> [] ->
  RuleParser.parseRuleString ("B" +:+ JS.join b +:+ "/S" +:+ JS.join s)
  = Ok {| birth := b; survival := s |}.
Proof.
  intros Hdb Hds Hnb Hns.
  destruct (join_digits b Hdb) as (Hb1 & Hb2 & Hb3).
  destruct (join_digits s Hds) as (Hs1 & Hs2 & Hs3).
  apply parseRuleString_accepts. exists (JS.join b), (JS.join s).
  split; [|by rewrite Hb2, Hs2; auto].
  rewrite append_cons, append_nil_l.
  rewrite <- (append_assoc (JS.join b) "/S" (JS.join s)).
  rewrite trim_id by auto.
  rewrite (append_assoc (JS.join b) "/S" (JS.join s)).
  cbn [JS.toUpperCase]. rewrite toUpperCase_app, toUpperCase_digits by done.
  rewrite !append_cons, append_nil_l. cbn [JS.toUpperCase].
  by rewrite toUpperCase_digits.
Qed.

(** X13.  The round trip, exactly.  The string formatted from a rule
    object of digits is accepted by the parser if and only if neither
    array is empty, and the rule parsed from it then holds the digits of
    each array in ascending order. *)
Theorem roundtrip_exactly (rule : RuleObject) (st st' : store) (b s : list Z) str :
  st !! birth_ref rule = Some b ->
  st !! survival_ref rule = Some s ->
  Forall digit b -> Forall digit s ->
  RuleParser.formatRuleString rule st = Some (str, st') ->
  ((exists r, RuleParser.parseRuleString str = Ok r) <-> b <> [] /\ s <> []) /\
  (forall r, RuleParser.parseRuleString str = Ok r ->
     birth r ≡ₚ b /\ survival r ≡ₚ s /\
     Sorted Z.le (birth r) /\ Sorted Z.le (survival r)).
Proof.
  intros Hb Hs Hdb Hds Hfmt.
  destruct (formatRuleString_result rule st b s Hb Hs Hdb Hds)
    as (b' & s' & st'' & Hfmt' & Hpb & Hps & Hsb & Hss & _).
  rewrite Hfmt in Hfmt'. injection Hfmt' as -> <-.
  assert (Hdb' : Forall digit b') by (by rewrite Hpb).
  assert (Hds' : Forall digit s') by (by rewrite Hps).
  destruct (decide (b' = [])) as [-> | Hnb].
  { apply Permutation_nil_l in Hpb. subst b. change (JS.join []) with "".
    rewrite parse_empty_birth by (by apply join_digits).
    split; [|done]. split; [by intros [r ?] | by intros [? _]]. }
  destruct (decide (s' = [])) as [-> | Hns].
  { apply Permutation_nil_l in Hps. subst s. change (JS.join []) with "".
    rewrite parse_empty_survival by (by apply join_digits).
    split; [|done]. split; [by intros [r ?] | by intros [_ ?]]. }
  rewrite parse_join by done. split.
  - split; [intros _|by eexists].
    split; intros ->.
    + by apply Permutation_nil_r in Hpb.
    + by apply Permutation_nil_r in Hps.
  - by intros r [= <-].
Qed.

Lemma roundtrip_exactly_witness :
  let rule := {| birth_ref := 1; survival_ref := 2 |} in
  let st : store := <[1%positive := [6; 3]]> (<[2%positive := [3; 2]]> ∅) in
  (exists r, RuleParser.parseRuleString "B36/S23" = Ok r) <-> [6; 3] <> [] /\ [3; 2] <> [].
Proof.
  intros rule st.
  refine (proj1 (roundtrip_exactly rule st _ [6; 3] [3; 2] "B36/S23" _ _ _ _ _)).
  - reflexivity.
  - reflexivity.
  - repeat (constructor; [unfold digit; lia|]). constructor.
  - repeat (constructor; [unfold digit; lia|]). constructor.
  - reflexivity.
Defined.

(** ** The rule box *)

(** X14.  A key stroke in the rule box never shows an error: the text is
    stored, the error is cleared, and a rule is handed to the hook exactly
    when the parser returns it; a text the parser refuses is ignored in
    silence. *)
Theorem handleRuleInputChange_silent (value : string) (st : Controls.State) :
  let out := Controls.handleRuleInputChange value st in
  Controls.ruleInput out.1 = value /\
  Controls.ruleError out.1 = None /\
  (forall r, out.2 = Some r <-> RuleParser.parseRuleString value = Ok r).
Proof.
  unfold Controls.handleRuleInputChange, RuleParser.isValidRuleString.
  destruct (RuleParser.parseRuleString value) as [r|msg]; cbn.
  - repeat split; congruence.
  - repeat split; congruence.
Qed.

(** ** The hook and its worker, further *)

Section Protocol.

Import System.

#[local] Arguments Worker.simulationStep : simpl never.
#[local] Arguments Worker.createInitialGrid : simpl never.

Lemma createInitialGrid_buffer w h pattern :
  0 <= w * h ->
  exists cells,
    Worker.createInitialGrid w h pattern = Some cells /\
    Z.of_nat (length cells) = w * h /\ Forall is_bit cells.
Proof.
  intros Hwh. destruct pattern as [ps|].
  - eexists. split; [by apply createInitialGrid_writes|].
    split; [rewrite length_writes, length_replicate; lia|].
    apply writes_bits, Forall_replicate. by left.
  - eexists. split.
    + unfold Worker.createInitialGrid, JS.new_Uint8Array.
      by rewrite decide_False by lia.
    + split; [rewrite length_replicate; lia | apply Forall_replicate; by left].
Qed.

Lemma toggle_buffer cells i :
  grid_buffer cells ->
  grid_buffer (JS.set cells (Some i) (if JS.is_one (JS.get cells (Some i)) then 0 else 1)).
Proof.
  intros [Hlen Hbits]. split; [by rewrite length_set|].
  unfold JS.set. case_decide; [done|]. apply Forall_insert; [done|].
  destruct (JS.is_one _); [by left | by right].
Qed.

Lemma shaped_initial workerOk : shaped (initial workerOk).
Proof.
  split; cbn [initial Hook.mount fst snd hook inbox outbox Hook.gridState
              width height cells].
  - done.
  - done.
  - split; [rewrite length_replicate; unfold Hook.DEFAULT_GRID_SIZE; lia|].
    apply Forall_replicate. by left.
  - destruct workerOk; repeat constructor.
  - constructor.
Qed.

Lemma shaped_post s (h : Hook.State) (msgs : list WorkerMessage) :
  Hook.gridState h = Hook.gridState (hook s) ->
  Forall request_shaped msgs ->
  shaped s -> shaped (post (h, msgs) s).
Proof.
  intros Hg Hmsgs [Hw Hh Hc Hin Hout].
  split; cbn [post fst snd hook inbox outbox]; rewrite ?Hg; try done.
  by apply Forall_app.
Qed.

Lemma shaped_request s : shaped s -> request_shaped (Hook.step_request (hook s)).
Proof. by intros [Hw Hh Hc _ _]. Qed.

(** The request of the callback of a render made in a shaped state. *)
Lemma shaped_render s : shaped s -> request_shaped (Hook.closure_request (Hook.render (hook s))).
Proof. by intros [Hw Hh Hc _ _]. Qed.

(** A transition keeps the shape, when the callback it runs, if it is a
    tick, closed over a grid of that shape. *)
Lemma shaped_transition s e :
  match e with
  | Tick closure _ _ => request_shaped (Hook.closure_request closure)
  | _ => True
  end ->
  shaped s -> shaped (transition s e).
Proof.
  intros He Hs. pose proof Hs as [Hw Hh Hc Hin Hout].
  destruct e as [c now ok | ok | ok | r ok | | sp | x y | fault |]; cbn [transition].
  - unfold Hook.stepSimulation.
    repeat case_match; apply shaped_post; try done.
    constructor; [exact He | constructor].
  - unfold Hook.step.
    repeat case_match; apply shaped_post; try done;
      repeat constructor; by apply shaped_request.
  - unfold Hook.reset.
    repeat case_match; apply shaped_post; try done; by repeat constructor.
  - unfold Hook.updateRule.
    repeat case_match; apply shaped_post; try done; by repeat constructor.
  - by split.
  - by split.
  - unfold Canvas.cellClick.
    destruct (Canvas.getGridCoords _ _ _) as [[x' y']|]; [|by split].
    split; cbn; try done. by apply toggle_buffer.
  - unfold worker_run. destruct (inbox s) as [|msg rest] eqn:Hmsgs; [done|].
    apply Forall_cons_1 in Hin as [Hmsg Hrest].
    destruct msg as [cs w h r | w h p | r]; cbn [Worker.onmessage].
    + destruct Hmsg as (-> & -> & Hlen & Hbits).
      assert (Hnext : grid_buffer (Worker.simulationStep cs 200 200 r))
        by (split; [by rewrite simulationStep_length | apply simulationStep_bits]).
      destruct fault; split; cbn [hook inbox outbox]; try assumption;
        apply Forall_app; (split; [assumption|]);
        (constructor; [|constructor]); [exact I | exact Hnext].
    + destruct Hmsg as [-> ->].
      destruct (createInitialGrid_buffer 200 200 p ltac:(lia)) as (g & -> & Hg).
      split; cbn; try done.
      apply Forall_app; split; [done|]. constructor; [exact Hg | constructor].
    + split; cbn; try done.
      apply Forall_app; split; [done|]. constructor; [exact I | constructor].
  - unfold deliver. destruct (outbox s) as [|ev rest] eqn:Hevs; [done|].
    apply Forall_cons_1 in Hout as [Hev Hrest].
    destruct ev as [[ns | g | r] |]; split; cbn; done.
Qed.

(** Along a run whose ticks run callbacks of the renders so far, every
    state is shaped, and so is every render. *)
Lemma shaped_run seen s events :
  Forall (fun c => request_shaped (Hook.closure_request c)) seen ->
  shaped s -> registered seen s events -> shaped (run s events).
Proof.
  revert seen s. induction events as [|e events IH]; intros seen s Hseen Hs Hreg; [done|].
  cbn [run foldl]. destruct Hreg as [He Hreg].
  assert (Hseen' : Forall (fun c => request_shaped (Hook.closure_request c))
                     (Hook.render (hook s) :: seen))
    by (constructor; [by apply shaped_render | done]).
  apply (IH (Hook.render (hook s) :: seen)); [done | | done].
  apply shaped_transition; [|done].
  destruct e; try exact I.
  by apply (proj1 (Forall_forall _ _) Hseen').
Qed.

Lemma workerless_transition s e : workerless s -> workerless (transition s e).
Proof.
  intros [Hw Hf Hin Hout].
  destruct e as [c now ok | ok | ok | r ok | | sp | x y | fault |]; cbn [transition].
  - unfold Hook.stepSimulation. rewrite Hw. by split; cbn; rewrite ?app_nil_r.
  - unfold Hook.step. rewrite Hw. by split; cbn; rewrite ?app_nil_r.
  - unfold Hook.reset. rewrite Hw. by split; cbn; rewrite ?app_nil_r.
  - unfold Hook.updateRule. cbn [Hook.set_config Hook.workerRef]. rewrite Hw.
    by split; cbn; rewrite ?app_nil_r.
  - by split.
  - by split.
  - unfold Canvas.cellClick.
    destruct (Canvas.getGridCoords _ _ _) as [[x' y']|]; by split.
  - unfold worker_run. rewrite Hin. by split.
  - unfold deliver. rewrite Hout. by split.
Qed.

End Protocol.

(** X15.  The worker's buffers never change shape.  In every state
    reached from the mount the grid is 200 by 200, its buffer has 40000
    cells, and every cell is 0 or 1, whatever the rules, edits, steps,
    resets and worker faults on the way, and whichever callbacks the
    ticks run among those of the current and of the earlier renders: a
    callback of an older render posts an older grid, of the same shape. *)
Theorem grid_keeps_shape (workerOk : bool) (events : list System.Event) :
  System.registered [] (System.initial workerOk) events ->
  let g := Hook.gridState (System.hook (System.run (System.initial workerOk) events)) in
  width g = 200 /\ height g = 200 /\
  Z.of_nat (length (cells g)) = 200 * 200 /\ Forall is_bit (cells g).
Proof.
  intros Hreg g.
  destruct (shaped_run [] (System.initial workerOk) events
              ltac:(constructor) (shaped_initial workerOk) Hreg)
    as [Hw Hh [Hlen Hbits] _ _].
  done.
Qed.

(** Play, an edit, and then the callback of the render before the edit:
    the grid it posts, and the result that comes back, have the shape. *)
Lemma grid_keeps_shape_witness :
  let s0 := System.initial true in
  let s1 := System.transition s0 System.TogglePlayPause in
  let events := [System.TogglePlayPause; System.CellClick 3 4;
                 System.Tick (Hook.render (System.hook s1)) 1000 true;
                 System.WorkerRun false; System.WorkerRun false; System.Deliver;
                 System.Deliver] in
  System.registered [] s0 events /\
  let g := Hook.gridState (System.hook (System.run s0 events)) in
  width g = 200 /\ height g = 200 /\
  Z.of_nat (length (cells g)) = 200 * 200 /\ Forall is_bit (cells g).
Proof.
  intros s0 s1 events.
  assert (Hreg : System.registered [] s0 events).
  { cbn [System.registered events]. repeat split.
    apply list_elem_of_further, list_elem_of_here. }
  split; [exact Hreg | exact (grid_keeps_shape true events Hreg)].
Defined.

(** X16.  When the worker could not be created the hook never posts a
    message, never sets the in-flight flag and never receives anything:
    steps, ticks, resets and rule changes leave the queues empty. *)
Theorem no_worker_no_message (events : list System.Event) :
  let s := System.run (System.initial false) events in
  System.inbox s = [] /\ System.outbox s = [] /\
  Hook.isProcessingRef (System.hook s) = false /\
  Hook.workerRef (System.hook s) = false.
Proof.
  intros s. subst s.
  assert (Hinv : workerless (System.run (System.initial false) events)).
  { assert (H0 : workerless (System.initial false)) by (by split).
    revert H0. generalize (System.initial false).
    induction events as [|e events IH]; intros s0 Hs0; [done|].
    cbn [System.run foldl]. apply IH. by apply workerless_transition. }
  by destruct Hinv.
Qed.

(** ** Scenarios *)

Section Scenarios.

Import System.

#[local] Arguments Worker.simulationStep : simpl never.
#[local] Arguments Worker.createInitialGrid : simpl never.

Lemma observable_onmessage fault r1 r2 msg :
  (Worker.onmessage fault r1 msg).2 = (Worker.onmessage fault r2 msg).2.
Proof.
  destruct msg as [cs w h r | w h p | r]; cbn [Worker.onmessage].
  - by destruct fault.
  - by destruct (Worker.createInitialGrid w h p).
  - done.
Qed.

Lemma observable_transition s1 s2 e :
  observable s1 = observable s2 ->
  observable (transition s1 e) = observable (transition s2 e).
Proof.
  destruct s1 as [h1 in1 r1 out1], s2 as [h2 in2 r2 out2].
  unfold observable. cbn [hook inbox outbox]. intros [= -> -> ->].
  destruct e as [c now ok | ok | ok | r ok | | sp | x y | fault |];
    cbn [transition post with_hook hook inbox outbox]; try done.
  - unfold worker_run. cbn [inbox currentRule hook outbox].
    destruct in2 as [|msg rest]; [done|].
    pose proof (observable_onmessage fault r1 r2 msg) as Hev.
    destruct (Worker.onmessage fault r1 msg) as [r1' ev1].
    destruct (Worker.onmessage fault r2 msg) as [r2' ev2].
    cbn [snd] in Hev. by subst.
  - unfold deliver. cbn [outbox]. by destruct out2.
Qed.


(** X17.  A step that fails leaves no trace: from a hook at rest, a
    manual step whose computation throws in the worker, once the error is
    delivered, and a manual step whose message cannot be posted, both
    give back the state they started from, ready for the next request. *)
Theorem failed_step_restores (s : System.State) :
  idle s ->
  System.run s [System.Step true; System.WorkerRun true; System.Deliver] = s /\
  System.run s [System.Step false] = s.
Proof.
  destruct s as [[cfg g wr last busy] msgs r evs].
  intros [Hw Hf Hin Hout]. cbn in Hw, Hf, Hin, Hout. subst. by split.
Qed.

Lemma failed_step_restores_witness :
  let s := System.run (System.initial true) [System.WorkerRun false; System.Deliver] in
  System.run s [System.Step true; System.WorkerRun true; System.Deliver] = s /\
  System.run s [System.Step false] = s.
Proof. intros s. apply failed_step_restores. by split. Defined.

(** X18.  An edit made while a step is in flight is lost: the result of
    the step, computed from the grid as it was when the step was
    requested, replaces the grid and the edit with it. *)
Theorem edit_in_flight_is_lost (s : System.State) (gridX gridY : Z) :
  idle s ->
  System.run s [System.Step true; System.CellClick gridX gridY;
                System.WorkerRun false; System.Deliver]
  = System.run s [System.Step true; System.WorkerRun false; System.Deliver].
Proof.
  destruct s as [[cfg g wr last busy] msgs r evs].
  intros [Hw Hf Hin Hout]. cbn in Hw, Hf, Hin, Hout. subst.
  cbn [System.run foldl System.transition System.post Hook.step System.hook
       Hook.workerRef Hook.isProcessingRef negb orb fst snd System.inbox app
       System.with_hook System.currentRule System.outbox].
  unfold Canvas.cellClick.
  destruct (Canvas.getGridCoords _ _ _) as [[x y]|]; reflexivity.
Qed.

Lemma edit_in_flight_is_lost_witness :
  let s := System.run (System.initial true) [System.WorkerRun false; System.Deliver] in
  System.run s [System.Step true; System.CellClick 5 5;
                System.WorkerRun false; System.Deliver]
  = System.run s [System.Step true; System.WorkerRun false; System.Deliver].
Proof. intros s. apply edit_in_flight_is_lost. by split. Defined.

(** X19.  A rule change does not reach the request in flight: the result
    that comes back was computed with the rule the step was issued with,
    and the next step is issued with the new rule. *)
Theorem rule_change_in_flight (s : System.State) (r : CellRule) :
  idle s ->
  let g := Hook.gridState (System.hook s) in
  let s' := System.run s [System.Step true; System.UpdateRule r true;
                          System.WorkerRun false; System.Deliver] in
  let stepped :=
    Worker.simulationStep (cells g) (width g) (height g)
      (rule (Hook.config (System.hook s))) in
  cells (Hook.gridState (System.hook s')) = stepped /\
  rule (Hook.config (System.hook s')) = r /\
  System.inbox s' = [UPDATE_RULE r] /\
  (Hook.step true (System.hook s')).2
    = [SIMULATION_STEP stepped (width g) (height g) r].
Proof.
  destruct s as [[cfg g wr last busy] msgs r0 evs].
  intros [Hw Hf Hin Hout]. cbn in Hw, Hf, Hin, Hout. subst. by repeat split.
Qed.

Lemma rule_change_in_flight_witness :
  let s := System.run (System.initial true) [System.WorkerRun false; System.Deliver] in
  let s' := System.run s [System.Step true;
                          System.UpdateRule {| birth := [2]; survival := [] |} true;
                          System.WorkerRun false; System.Deliver] in
  rule (Hook.config (System.hook s')) = {| birth := [2]; survival := [] |}.
Proof.
  intros s s'.
  refine (proj1 (proj2 (rule_change_in_flight s {| birth := [2]; survival := [] |} _))).
  by split.
Defined.







(** X21.  The rule the worker stores is dead state: two systems that
    differ in it only show the same hook and the same messages for ever,
    so no result ever depends on an UPDATE_RULE message. *)
Theorem worker_rule_is_unobservable (s1 s2 : System.State) (events : list System.Event) :
  observable s1 = observable s2 ->
  observable (System.run s1 events) = observable (System.run s2 events).
Proof.
  revert s1 s2. induction events as [|e events IH]; intros s1 s2 Hobs; [done|].
  cbn [System.run foldl]. apply IH. by apply observable_transition.
Qed.

Lemma worker_rule_is_unobservable_witness :
  let s1 := System.initial true in
  let s2 := {| System.hook := System.hook s1; System.inbox := System.inbox s1;
               System.currentRule := {| birth := []; survival := [] |};
               System.outbox := System.outbox s1 |} in
  observable (System.run s1 [System.WorkerRun false; System.Deliver; System.Step true])
  = observable (System.run s2 [System.WorkerRun false; System.Deliver; System.Step true]).
Proof. intros s1 s2. by apply worker_rule_is_unobservable. Defined.

Lemma getGridCoords_inside (gridX gridY : Z) (g : GridState) :
  0 <= gridX < width g -> 0 <= gridY < height g ->
  Canvas.getGridCoords gridX gridY g = Some (gridX, gridY).
Proof.
  intros Hx Hy. unfold Canvas.getGridCoords.
  rewrite (proj2 (Z.leb_le 0 gridX)), (proj2 (Z.ltb_lt gridX _)),
    (proj2 (Z.leb_le 0 gridY)), (proj2 (Z.ltb_lt gridY _)) by lia.
  done.
Qed.

(** One call of [onCellClick] by a handler of the canvas, inside the
    grid: on a grid whose buffer has [width * height] cells, the cell
    [(x, y)] goes from 1 to 0 or from anything else to 1, and every other
    cell of the grid, and the size, stay as they were. *)
Lemma cellClick_flips_pointed (h : Hook.State) (x y : Z) :
  let g := Hook.gridState h in
  let g' := Hook.gridState (Canvas.cellClick x y h) in
  Z.of_nat (length (cells g)) = width g * height g ->
  0 <= x < width g -> 0 <= y < height g ->
  cell_at (cells g') (width g) x y
    = Some (if JS.is_one (cell_at (cells g) (width g) x y) then 0 else 1) /\
  (forall x' y', 0 <= x' < width g -> 0 <= y' < height g -> (x', y') <> (x, y) ->
     cell_at (cells g') (width g) x' y' = cell_at (cells g) (width g) x' y') /\
  width g' = width g /\ height g' = height g.
Proof.
  intros g g' Hlen Hx Hy. subst g'. unfold Canvas.cellClick.
  fold g. rewrite getGridCoords_inside by done.
  unfold Hook.toggleCell. fold g.
  cbn [Hook.gridState Hook.set_cells cells width height]. unfold cell_at.
  split; [|split; [|done]].
  - rewrite get_set_eq by nia. f_equal. by destruct (JS.is_one _).
  - intros x' y' Hx' Hy' Hne. apply get_set_ne.
    intros [= Heq]. apply Hne.
    by destruct (index_inj (width g) x y x' y' Hx Hx' Heq) as [-> ->].
Qed.

(** Two toggles of the same cell of a grid of bits undo each other. *)
Lemma toggleCell_twice (h : Hook.State) (x y : Z) :
  Forall is_bit (cells (Hook.gridState h)) ->
  Hook.toggleCell x y (Hook.toggleCell x y h) = h.
Proof.
  destruct h as [cfg [w ht cs] wr last busy]. cbn [Hook.gridState cells].
  intros Hbits. unfold Hook.toggleCell, Hook.set_cells.
  cbn [Hook.gridState cells width height Hook.config Hook.workerRef
       Hook.lastStepTimeRef Hook.isProcessingRef].
  do 2 f_equal. set (i := y * w + x). unfold JS.set, JS.get.
  case_decide; [done|].
  destruct (cs !! Z.to_nat i) as [c|] eqn:Hc.
  - rewrite list_lookup_insert_eq by (by eapply lookup_lt_Some).
    rewrite list_insert_insert_eq.
    apply list_insert_id.
    destruct (Forall_lookup_1 _ _ _ _ Hbits Hc) as [-> | ->]; done.
  - apply lookup_ge_None_1 in Hc.
    rewrite !list_insert_ge by (rewrite ?length_insert; lia). done.
Qed.

Lemma cellClick_twice (h : Hook.State) (x y : Z) :
  Forall is_bit (cells (Hook.gridState h)) ->
  Canvas.cellClick x y (Canvas.cellClick x y h) = h.
Proof.
  intros Hbits. unfold Canvas.cellClick.
  destruct (Canvas.getGridCoords x y (Hook.gridState h)) as [[x' y']|] eqn:Hc.
  - replace (Canvas.getGridCoords x y (Hook.gridState (Hook.toggleCell x' y' h)))
      with (Some (x', y')) by (by rewrite <- Hc).
    by apply toggleCell_twice.
  - by rewrite Hc.
Qed.

(** X22.  A click of the mouse toggles the cell twice.  On a grid of
    cells that are 0 or 1 whose buffer has [width * height] cells, a
    press of the left button without modifier keys inside the grid flips
    the cell under the pointer and no other (the handler of mousedown
    calls [onCellClick]); after the release, the click event that the
    browser sends calls [onCellClick] again, for the states [isDrawing]
    and [drawMode] are then false and true, and flips the cell back: the
    whole click leaves the hook as it was. *)
Theorem click_toggles_twice (e : Canvas.MouseEvent) (c : Canvas.State) (h : Hook.State) :
  let g := Hook.gridState h in
  let x := Canvas.gridX e in
  let y := Canvas.gridY e in
  Canvas.button e = 0 -> Canvas.modifier e = false ->
  Z.of_nat (length (cells g)) = width g * height g ->
  Forall is_bit (cells g) ->
  0 <= x < width g -> 0 <= y < height g ->
  let down := Canvas.handleMouseDown e c h in
  let up := Canvas.handleMouseUp down.1 in
  let g' := Hook.gridState down.2 in
  (cell_at (cells g') (width g) x y
     = Some (if JS.is_one (cell_at (cells g) (width g) x y) then 0 else 1) /\
   cell_at (cells g') (width g) x y <> cell_at (cells g) (width g) x y /\
   forall x' y', 0 <= x' < width g -> 0 <= y' < height g -> (x', y') <> (x, y) ->
     cell_at (cells g') (width g) x' y' = cell_at (cells g) (width g) x' y') /\
  Canvas.handleClick e up down.2 = (up, h) /\
  Canvas.click e c h
  = ({| Canvas.isDrawing := false; Canvas.drawMode := true;
        Canvas.isDraggingRef := false |}, h).
Proof.
  intros g x y Hb Hm Hlen Hbits Hx Hy down up g'.
  assert (Hdown : down = ({| Canvas.isDrawing := true; Canvas.drawMode := true;
                             Canvas.isDraggingRef := Canvas.isDraggingRef c |},
                          Canvas.cellClick x y h)).
  { subst down. unfold Canvas.handleMouseDown. by rewrite Hb, Hm. }
  assert (Hclick : Canvas.handleClick e up down.2 = (up, h)).
  { subst up. rewrite Hdown. unfold Canvas.handleClick, Canvas.handleMouseUp.
    cbn [fst snd Canvas.isDrawing Canvas.drawMode negb andb].
    fold x y. by rewrite cellClick_twice. }
  split; [|split; [exact Hclick|]].
  - subst g'. rewrite Hdown. cbn [snd].
    destruct (cellClick_flips_pointed h x y Hlen Hx Hy) as (Hflip & Hothers & _).
    fold g in Hflip, Hothers. split; [exact Hflip|]. split; [|exact Hothers].
    rewrite Hflip.
    destruct (cell_at_bit (cells g) (width g) x y Hbits ltac:(nia)) as [-> | ->]; done.
  - unfold Canvas.click. fold down. destruct down as [c1 h1] eqn:Hd.
    cbn [fst snd] in up, Hclick. fold up. rewrite Hclick. subst up.
    injection Hdown as -> _. done.
Qed.

(** A click on the dead cell [(7, 9)] of the grid of the mount: the press
    makes it live, and the click event kills it again. *)
Lemma click_toggles_twice_witness :
  let e := {| Canvas.button := 0; Canvas.modifier := false;
              Canvas.gridX := 7; Canvas.gridY := 9 |} in
  let h := (Hook.mount true).1 in
  cell_at (cells (Hook.gridState (Canvas.handleMouseDown e Canvas.mounted h).2)) 200 7 9
    = Some 1 /\
  Canvas.click e Canvas.mounted h
  = ({| Canvas.isDrawing := false; Canvas.drawMode := true;
        Canvas.isDraggingRef := false |}, h).
Proof.
  intros e h.
  assert (Hlen : Z.of_nat (length (cells (Hook.gridState h)))
                 = width (Hook.gridState h) * height (Hook.gridState h)).
  { subst h. cbn [Hook.mount fst Hook.gridState cells width height].
    rewrite length_replicate. unfold Hook.DEFAULT_GRID_SIZE. lia. }
  assert (Hbits : Forall is_bit (cells (Hook.gridState h))).
  { subst h. cbn [Hook.mount fst Hook.gridState cells].
    apply Forall_replicate. by left. }
  destruct (click_toggles_twice e Canvas.mounted h eq_refl eq_refl Hlen Hbits
              ltac:(vm_compute; split; [discriminate | reflexivity])
              ltac:(vm_compute; split; [discriminate | reflexivity]))
    as ((Hflip & _ & _) & _ & Hclick).
  split; [|exact Hclick].
  refine (eq_trans Hflip _). vm_compute. reflexivity.
Defined.

End Scenarios.

(** ** The torus has no origin *)

Section Homogeneous.

Lemma bind_singleton_map {A B} (f : A -> B) (l : list A) :
  l ≫= (fun a => [f a]) = f <$> l.
Proof. induction l as [|a l IH]; [done|]. by rewrite bind_cons, IH. Qed.

Lemma scan_rows w (n : nat) :
  scan w (Z.of_nat (S n))
  = scan w (Z.of_nat n) ++ ((fun x => (x, Z.of_nat n)) <$> seqZ 0 w).
Proof.
  unfold scan. rewrite seqZ_S, bind_app, bind_singleton, Z.add_0_l.
  by rewrite bind_singleton_map.
Qed.

Lemma length_scan w (n : nat) : 0 <= w -> Z.of_nat (length (scan w (Z.of_nat n))) = w * Z.of_nat n.
Proof.
  intros Hw. induction n as [|n IH].
  - change (scan w (Z.of_nat 0)) with (@nil (Z * Z)). cbn [length]. lia.
  - rewrite scan_rows, length_app, length_fmap, length_seqZ. nia.
Qed.

Lemma lookup_scan w (n : nat) i :
  0 < w -> 0 <= i < w * Z.of_nat n ->
  scan w (Z.of_nat n) !! Z.to_nat i = Some (i mod w, i / w).
Proof.
  intros Hw. induction n as [|n IH]; intros Hi; [lia|].
  pose proof (length_scan w n ltac:(lia)) as Hlen.
  rewrite scan_rows. destruct (decide (i < w * Z.of_nat n)) as [Hlt|Hge].
  - rewrite lookup_app_l by lia. apply IH. lia.
  - rewrite lookup_app_r by lia. rewrite list_lookup_fmap.
    replace (Z.to_nat i - length (scan w (Z.of_nat n)))%nat
      with (Z.to_nat (i - w * Z.of_nat n)) by lia.
    rewrite lookup_seqZ_lt by lia. cbn. f_equal.
    assert (Hq : i / w = Z.of_nat n)
      by (symmetry; apply (Z.div_unique i w (Z.of_nat n) (i - w * Z.of_nat n)); lia).
    rewrite Z2Nat.id by lia.
    pose proof (Z.div_mod i w ltac:(lia)). f_equal; lia.
Qed.

Lemma length_moved cells w h dx dy :
  0 <= w -> 0 <= h -> Z.of_nat (length (moved cells w h dx dy)) = w * h.
Proof.
  intros Hw Hh. unfold moved. rewrite length_fmap.
  rewrite <- (Z2Nat.id h) by done. rewrite length_scan by done. lia.
Qed.

(** The cells of the moved grid. *)
Lemma cell_at_moved cells w h dx dy x y :
  0 < w -> 0 < h -> Z.of_nat (length cells) = w * h ->
  0 <= x < w -> 0 <= y < h ->
  cell_at (moved cells w h dx dy) w x y
  = cell_at cells w ((x - dx) mod w) ((y - dy) mod h).
Proof.
  intros Hw Hh Hlen Hx Hy. unfold cell_at at 1. unfold JS.get.
  rewrite decide_False by nia. unfold moved. rewrite list_lookup_fmap.
  rewrite <- (Z2Nat.id h) at 1 by lia. rewrite lookup_scan by (rewrite ?Z2Nat.id; nia).
  cbn [fmap option_fmap option_map fst snd].
  replace ((y * w + x) mod w) with x
    by (rewrite Z.add_comm, Z_mod_plus_full, Z.mod_small; lia).
  replace ((y * w + x) / w) with y
    by (apply (Z.div_unique _ w y x); lia).
  pose proof (Z.mod_pos_bound (x - dx) w Hw).
  pose proof (Z.mod_pos_bound (y - dy) h Hh).
  unfold cell_at, JS.get. rewrite decide_False by nia.
  destruct (lookup_lt_is_Some_2 cells
    (Z.to_nat ((y - dy) mod h * w + (x - dx) mod w))) as [c ->]; [nia|]. done.
Qed.

Lemma filter_map_length {A B} (f : B -> bool) (g : A -> B) (l : list A) :
  length (List.filter f (g <$> l)) = length (List.filter (fun a => f (g a)) l).
Proof.
  induction l as [|a l IH]; [done|]. cbn. destruct (f (g a)); cbn; by rewrite IH.
Qed.

Lemma filter_ext_length {A} (f g : A -> bool) (l : list A) :
  (forall a, f a = g a) -> length (List.filter f l) = length (List.filter g l).
Proof.
  intros Hfg. induction l as [|a l IH]; [done|]. cbn. rewrite Hfg.
  destruct (g a); cbn; by rewrite IH.
Qed.

Lemma wrap_shift a d k w : ((a + d) mod w - k) mod w = ((a - k) mod w + d) mod w.
Proof.
  rewrite Zminus_mod_idemp_l, Zplus_mod_idemp_l. f_equal. lia.
Qed.

Lemma countNeighbors_moved cells w h dx dy x y :
  0 < w -> 0 < h -> Z.of_nat (length cells) = w * h ->
  0 <= x < w -> 0 <= y < h ->
  Worker.countNeighbors (moved cells w h dx dy) x y w h
  = Worker.countNeighbors cells ((x - dx) mod w) ((y - dy) mod h) w h.
Proof.
  intros Hw Hh Hlen Hx Hy.
  pose proof (Z.mod_pos_bound (x - dx) w Hw).
  pose proof (Z.mod_pos_bound (y - dy) h Hh).
  rewrite !countNeighbors_count by done. f_equal.
  unfold neighbours. rewrite !filter_map_length. apply filter_ext_length.
  intros d. unfold live_at. cbn [fst snd].
  rewrite cell_at_moved by (done || apply Z.mod_pos_bound; done).
  by rewrite !wrap_shift.
Qed.

End Homogeneous.

(** X23.  The step commutes with the translations of the torus: on a
    grid of positive width and height whose buffer has [width * height]
    cells, moving the grid by any [(dx, dy)] and stepping gives the same
    buffer as stepping and then moving. *)
Theorem simulationStep_moved cells w h r dx dy :
  0 < w -> 0 < h -> Z.of_nat (length cells) = w * h ->
  Worker.simulationStep (moved cells w h dx dy) w h r
  = moved (Worker.simulationStep cells w h r) w h dx dy.
Proof.
  intros Hw Hh Hlen.
  pose proof (length_moved cells w h dx dy ltac:(lia) ltac:(lia)) as Hlm.
  pose proof (simulationStep_length cells w h r) as Hls.
  apply list_eq. intros i.
  destruct (decide (Z.of_nat i < w * h)) as [Hi|Hi].
  - rewrite <- !get_nat.
    rewrite simulationStep_lookup by (done || lia).
    set (x := Z.of_nat i mod w). set (y := Z.of_nat i / w).
    pose proof (Z.div_mod (Z.of_nat i) w ltac:(lia)) as Hdm.
    pose proof (Z.mod_pos_bound (Z.of_nat i) w Hw) as Hxm. fold x in Hxm, Hdm. fold y in Hdm.
    assert (Hy : 0 <= y < h)
      by (subst y; split; [apply Z.div_pos; lia | apply Z.div_lt_upper_bound; nia]).
    replace (Z.of_nat i) with (y * w + x) by lia.
    change (JS.get ?c (Some (y * w + x))) with (cell_at c w x y).
    rewrite cell_at_moved by (done || lia).
    pose proof (Z.mod_pos_bound (x - dx) w Hw).
    pose proof (Z.mod_pos_bound (y - dy) h Hh).
    rewrite simulationStep_cell by done. f_equal.
    unfold next_cell. rewrite cell_at_moved, countNeighbors_moved by done. done.
  - pose proof (length_moved (Worker.simulationStep cells w h r) w h dx dy
                  ltac:(lia) ltac:(lia)).
    rewrite (lookup_ge_None_2 (Worker.simulationStep _ _ _ _))
      by (rewrite simulationStep_length; lia).
    by rewrite lookup_ge_None_2 by lia.
Qed.

(** Moving a grid made from positions is making the grid from the moved
    positions. *)
Example moved_glider :
  moved (grid_of 6 6 glider) 6 6 1 (-1) = grid_of 6 6 (translate 1 (-1) 6 6 <$> glider).
Proof. vm_compute. reflexivity. Qed.

Lemma simulationStep_moved_witness :
  Worker.simulationStep (moved (grid_of 6 6 glider) 6 6 2 5) 6 6 B3S23
  = moved (Worker.simulationStep (grid_of 6 6 glider) 6 6 B3S23) 6 6 2 5.
Proof. apply simulationStep_moved; [lia | lia | reflexivity]. Defined.
